(** * EchoLingua: audio codec helpers, playback scheduler and session lifecycle

    A shallow embedding of [src/echolingua-ai/App.tsx].

    Conventions of the model.
    - A JavaScript string is the list of its UTF-16 code units ([jsstring]).
    - A [Uint8Array] is a list of integers in [0,256); an [Int16Array] a list
      of integers in [-32768,32768).  The conversions that the typed arrays
      apply on a store (truncation, wrap-around) are written out.
    - Audio samples are rationals.  Every finite [Float32Array] value is a
      dyadic rational; multiplying it by 32768, truncating, and dividing a
      16-bit integer by 32768 are all exact in IEEE double and single
      precision, so the codec is modelled without rounding.
    - The other numbers of the program (times, durations, sample rates,
      volume and playback rate) are IEEE 754 doubles, with their rounding,
      infinities and NaN: Rocq's primitive floats.
    - What [createBuffer] accepts beyond a non-zero channel and frame count
      depends on the implementation; it is a parameter ([WebAudio]).
    - Code that can throw returns [option] or an [outcome] carrying the state
      reached when the exception was raised; React state and [useRef] cells
      are fields of one explicit state record, and calls into the platform
      (alert, console.error, Web Audio, the live session) are appended to an
      effect log. *)

From Stdlib Require Import ZArith QArith Qabs Qminmax Lia List String Ascii.
From Stdlib Require Import Floats.
From stdpp Require Import base option list gmap strings.
Import ListNotations.

Set Warnings "-register-all".

Local Open Scope Z_scope.

(** ** JavaScript strings *)

Definition jsstring := list Z.

(** Code units of an ASCII literal of the source. *)
Definition js (s : string) : jsstring :=
  map (fun a => Z.of_N (N_of_ascii a)) (list_ascii_of_string s).

Module Base64.

(** *** The platform's [btoa] and [atob] (WHATWG forgiving-base64) *)

Definition alphabet : jsstring :=
  js "ABCDEFGHIJKLMNOPQRSTUVWXYZabcdefghijklmnopqrstuvwxyz0123456789+/".

Definition pad : Z := 61.

Definition char_of (i : Z) : Z := nth (Z.to_nat i) alphabet 0.

Definition index_of (c : Z) : option Z :=
  if (65 <=? c) && (c <=? 90) then Some (c - 65)
  else if (97 <=? c) && (c <=? 122) then Some (c - 71)
  else if (48 <=? c) && (c <=? 57) then Some (c + 4)
  else if c =? 43 then Some 62
  else if c =? 47 then Some 63
  else None.

(** Three bytes become four sextets; a final group of one or two bytes is
    padded with [=]. *)
Fixpoint encode_bytes (bs : list Z) : jsstring :=
  match bs with
  | [] => []
  | [b0] => [char_of (b0 / 4); char_of ((b0 mod 4) * 16); pad; pad]
  | [b0; b1] =>
      [char_of (b0 / 4); char_of ((b0 mod 4) * 16 + b1 / 16);
       char_of ((b1 mod 16) * 4); pad]
  | b0 :: b1 :: b2 :: rest =>
      char_of (b0 / 4) :: char_of ((b0 mod 4) * 16 + b1 / 16)
      :: char_of ((b1 mod 16) * 4 + b2 / 64) :: char_of (b2 mod 64)
      :: encode_bytes rest
  end.

(** [btoa] throws InvalidCharacterError on a code unit above 255. *)
Definition btoa (s : jsstring) : option jsstring :=
  if forallb (fun c => (0 <=? c) && (c <=? 255)) s
  then Some (encode_bytes s) else None.

Definition is_ascii_whitespace (c : Z) : bool :=
  (c =? 9) || (c =? 10) || (c =? 12) || (c =? 13) || (c =? 32).

(** Removes one or two trailing [=]. *)
Fixpoint strip_padding (s : jsstring) : jsstring :=
  match s with
  | [] => []
  | c :: r =>
      if (c =? pad) && (match r with
                        | [] => true
                        | [d] => d =? pad
                        | _ => false
                        end)
      then [] else c :: strip_padding r
  end.

Fixpoint sextets (s : jsstring) : option (list Z) :=
  match s with
  | [] => Some []
  | c :: r =>
      match index_of c, sextets r with
      | Some i, Some l => Some (i :: l)
      | _, _ => None
      end
  end.

(** Four sextets give three bytes; two trailing sextets give one byte and
    three give two, the left-over bits being discarded; one trailing
    sextet is a failure. *)
Fixpoint decode_sextets (l : list Z) : option (list Z) :=
  match l with
  | [] => Some []
  | [_] => None
  | [s0; s1] => Some [s0 * 4 + s1 / 16]
  | [s0; s1; s2] => Some [s0 * 4 + s1 / 16; (s1 mod 16) * 16 + s2 / 4]
  | s0 :: s1 :: s2 :: s3 :: rest =>
      match decode_sextets rest with
      | Some bs =>
          Some (s0 * 4 + s1 / 16 :: (s1 mod 16) * 16 + s2 / 4
                :: (s2 mod 4) * 64 + s3 :: bs)
      | None => None
      end
  end.

(** [atob] throws InvalidCharacterError where this returns [None]. *)
Definition atob (s : jsstring) : option jsstring :=
  let s1 := List.filter (fun c => negb (is_ascii_whitespace c)) s in
  let s2 := if Z.of_nat (length s1) mod 4 =? 0 then strip_padding s1 else s1 in
  match sextets s2 with
  | Some l => decode_sextets l
  | None => None
  end.

End Base64.

(** ** Numbers and the audio implementation *)

(** [Math.max] of two numbers: NaN when either is NaN, and [+0] above [-0]. *)
Definition Math_max (a b : float) : float :=
  if PrimFloat.is_nan a || PrimFloat.is_nan b then nan
  else if (a <? b)%float then b
  else if (b <? a)%float then a
  else if get_sign a then b else a.

(** The double nearest to a count of frames (a frame count is an unsigned
    long, far below 2^63). *)
Definition number_of_nat (n : nat) : float :=
  PrimFloat.of_uint63 (Uint63.of_Z (Z.of_nat n)).

(** The channel counts and sample rates that [createBuffer] of the
    implementation supports; outside them it throws NotSupportedError. *)
Class WebAudio := { createBuffer_supports : nat -> float -> bool }.

(** The least that the Web Audio API lets an implementation support: up to
    32 channels, and rates from 8000 to 96000 Hz. *)
Definition required_support : WebAudio :=
  {| createBuffer_supports := fun n r =>
       (1 <=? n)%nat && (n <=? 32)%nat
       && (8000 <=? r)%float && (r <=? 96000)%float |}.

Section Implementation.

Context {wa : WebAudio}.

(** ** Audio helper functions *)

Definition Uint8Array := list Z.
Definition Int16Array := list Z.
Definition Float32Array := list Q.

(** Store of a number into a [Uint8Array] element. *)
Definition ToUint8 (z : Z) : Z := z mod 256.

(** Store of a (finite) number into an [Int16Array] element: truncate toward
    zero, then wrap modulo 2^16 into the signed range. *)
Definition truncQ (q : Q) : Z := Z.quot (Qnum q) (Zpos (Qden q)).

Definition wrap16 (z : Z) : Z := (z + 32768) mod 65536 - 32768.

Definition ToInt16 (q : Q) : Z := wrap16 (truncQ q).

(** [decode]: base64 text to bytes. *)
Definition decode (base64 : jsstring) : option Uint8Array :=
  match Base64.atob base64 with
  | Some binaryString => Some (map ToUint8 binaryString)
  | None => None
  end.

(** [encode]: bytes to base64 text, through a binary string with one code
    unit per byte. *)
Definition encode (bytes : Uint8Array) : option jsstring :=
  Base64.btoa bytes.

(** [new Uint8Array(int16.buffer)]: the two bytes of each element, low byte
    first. *)
Definition bytes_of_int16 (z : Z) : list Z :=
  let u := z mod 65536 in [u mod 256; u / 256].

Definition Uint8Array_of_Int16Array (a : Int16Array) : Uint8Array :=
  flat_map bytes_of_int16 a.

(** [new Int16Array(data.buffer)]: a RangeError on an odd byte length. *)
Definition int16_of_bytes (lo hi : Z) : Z :=
  let u := lo + 256 * hi in if u <? 32768 then u else u - 65536.

Fixpoint Int16Array_of_Uint8Array (bs : Uint8Array) : option Int16Array :=
  match bs with
  | [] => Some []
  | [_] => None
  | lo :: hi :: rest =>
      match Int16Array_of_Uint8Array rest with
      | Some a => Some (int16_of_bytes lo hi :: a)
      | None => None
      end
  end.

Record AudioBuffer := {
  numberOfChannels : nat;
  sampleRate : float;
  channelData : list Float32Array
}.

(** Frames of the buffer: the length of its channels. *)
Definition buffer_length (b : AudioBuffer) : nat :=
  match channelData b with
  | [] => 0%nat
  | c :: _ => length c
  end.

(** [AudioBuffer.duration]: the frames over the sample rate, as a double. *)
Definition duration (b : AudioBuffer) : float :=
  (number_of_nat (buffer_length b) / sampleRate b)%float.

(** The loop body of [decodeAudioData]:
    [channelData[i] = dataInt16[i * numChannels + channel] / 32768.0]. *)
Definition channel_sample (dataInt16 : Int16Array) (numChannels channel i : nat) : Q :=
  Qmake (nth (i * numChannels + channel) dataInt16 0) 32768.

(** [decodeAudioData].  [ctx.createBuffer] takes the frame count as an
    unsigned long, so a fractional [length / numChannels] is truncated, and
    it throws NotSupportedError when the channel count or the frame count is
    zero, or when the implementation does not support the channel count or
    the sample rate.  The loops write every in-range element of every
    channel. *)
Definition decodeAudioData (data : Uint8Array) (sampleRate : float)
    (numChannels : nat) : option AudioBuffer :=
  match Int16Array_of_Uint8Array data with
  | None => None
  | Some dataInt16 =>
      let frameCount := Nat.div (length dataInt16) numChannels in
      if (numChannels =? 0)%nat || (frameCount =? 0)%nat
         || negb (createBuffer_supports numChannels sampleRate)
      then None
      else Some {| numberOfChannels := numChannels;
                   sampleRate := sampleRate;
                   channelData :=
                     map (fun channel =>
                            map (channel_sample dataInt16 numChannels channel)
                                (seq 0 frameCount))
                         (seq 0 numChannels) |}
  end.

Record Blob := { data : jsstring; mimeType : jsstring }.

(** [createBlob]: [int16[i] = data[i] * 32768], then the bytes, base64. *)
Definition quantize (x : Q) : Z := ToInt16 (x * 32768)%Q.

Definition createBlob (samples : Float32Array) : option Blob :=
  let int16 := map quantize samples in
  match encode (Uint8Array_of_Int16Array int16) with
  | Some d => Some {| data := d; mimeType := js "audio/pcm;rate=16000" |}
  | None => None
  end.

(** The round trip of the claims: [decodeAudioData(decode(createBlob(x).data))]. *)
Definition roundtrip (x : Float32Array) (rate : float) (numChannels : nat)
  : option AudioBuffer :=
  match createBlob x with
  | None => None
  | Some blob =>
      match decode (data blob) with
      | None => None
      | Some bytes => decodeAudioData bytes rate numChannels
      end
  end.

(** Ranges of the typed arrays, and the tolerance of the round trip. *)
Definition is_byte (b : Z) : Prop := 0 <= b < 256.

Definition is_int16 (z : Z) : Prop := -32768 <= z < 32768.

Definition sample_at (b : AudioBuffer) (channel i : nat) : option Q :=
  match channelData b !! channel with
  | Some ch => ch !! i
  | None => None
  end.

Definition within_tolerance (y s : Q) : Prop := (Qabs (y - s) <= 1 # 32768)%Q.

(** ** Whitespace trimming ([String.prototype.trim]) *)

(** White space and line terminators of ECMAScript, as code units. *)
Definition is_js_whitespace (c : Z) : bool :=
  ((9 <=? c) && (c <=? 13)) || (c =? 32) || (c =? 160) || (c =? 5760)
  || ((8192 <=? c) && (c <=? 8202)) || (c =? 8232) || (c =? 8233)
  || (c =? 8239) || (c =? 8287) || (c =? 12288) || (c =? 65279).

Fixpoint trim_start (s : jsstring) : jsstring :=
  match s with
  | [] => []
  | c :: r => if is_js_whitespace c then trim_start r else s
  end.

Definition trim (s : jsstring) : jsstring :=
  rev (trim_start (rev (trim_start s))).

(** Truthiness of a string: it is not empty. *)
Definition truthy (s : jsstring) : bool :=
  match s with [] => false | _ => true end.

(** ** Settings *)

Inductive Theme := light | dark.

Record AppSettings := {
  theme : Theme;
  volume : float;
  playbackRate : float
}.

(** Values produced by [JSON.parse]. *)
Inductive JSON :=
| JNull
| JBool (b : bool)
| JNum (x : float)
| JStr (s : jsstring)
| JArr (items : list JSON)
| JObj (fields : list (jsstring * JSON)).

Definition jsstring_eqb (a b : jsstring) : bool := bool_decide (a = b).

Fixpoint assoc (k : jsstring) (fields : list (jsstring * JSON)) : option JSON :=
  match fields with
  | [] => None
  | (k', v) :: r => if jsstring_eqb k k' then Some v else assoc k r
  end.

(** Property read [parsed.k]: a TypeError ([None]) on [null], [undefined]
    ([Some None]) where the value has no such property. *)
Definition get_prop (parsed : JSON) (k : string) : option (option JSON) :=
  match parsed with
  | JNull => None
  | JObj fields => Some (assoc (js k) fields)
  | _ => Some None
  end.

Definition settings_key : string := "echoLinguaSettings".

Section Platform.

(** [JSON.parse] of the platform; [None] is a thrown SyntaxError. *)
Variable JSON_parse : jsstring -> option JSON.

Definition fallback_settings (prefersDarkMode : bool) : AppSettings :=
  {| theme := if prefersDarkMode then dark else light;
     volume := 1; playbackRate := 1 |}.

Definition number_or_one (v : option JSON) : float :=
  match v with Some (JNum x) => x | _ => 1%float end.

Definition getInitialSettings (localStorage : gmap string jsstring)
    (prefersDarkMode : bool) : AppSettings :=
  match localStorage !! settings_key with
  | Some savedSettings =>
      if truthy savedSettings then
        match JSON_parse savedSettings with
        | Some parsed =>
            match get_prop parsed "theme", get_prop parsed "volume",
                  get_prop parsed "playbackRate" with
            | Some t, Some v, Some r =>
                {| theme := match t with
                            | Some (JStr s) =>
                                if jsstring_eqb s (js "dark") then dark else light
                            | _ => light
                            end;
                   volume := number_or_one v;
                   playbackRate := number_or_one r |}
            | _, _, _ => fallback_settings prefersDarkMode
            end
        | None => fallback_settings prefersDarkMode
        end
      else fallback_settings prefersDarkMode
  | None => fallback_settings prefersDarkMode
  end.

(** *** The [App] component *)

Inductive Tab := translate | practice.

Record AppState := {
  activeTab : Tab;
  settings : AppSettings;
  textToSpeak : jsstring;
  darkClass : bool;
  localStorage : gmap string jsstring
}.

(** First render: [useState(getInitialSettings())] and the theme effect. *)
Definition App_mount (storage : gmap string jsstring) (prefersDarkMode : bool)
  : AppState :=
  let s := getInitialSettings storage prefersDarkMode in
  {| activeTab := translate; settings := s; textToSpeak := [];
     darkClass := match theme s with dark => true | light => false end;
     localStorage := storage |}.

(** The header button:
    [setSettings(s => ({ ...s, theme: s.theme === 'light' ? 'dark' : 'light' }))],
    followed by the effect on [settings.theme]. *)
Definition toggleTheme (st : AppState) : AppState :=
  let t := match theme (settings st) with light => dark | dark => light end in
  {| activeTab := activeTab st;
     settings := {| theme := t; volume := volume (settings st);
                    playbackRate := playbackRate (settings st) |};
     textToSpeak := textToSpeak st;
     darkClass := match t with dark => true | light => false end;
     localStorage := localStorage st |}.

Definition setActiveTab (t : Tab) (st : AppState) : AppState :=
  {| activeTab := t; settings := settings st; textToSpeak := textToSpeak st;
     darkClass := darkClass st; localStorage := localStorage st |}.

Definition setTextToSpeak (s : jsstring) (st : AppState) : AppState :=
  {| activeTab := activeTab st; settings := settings st; textToSpeak := s;
     darkClass := darkClass st; localStorage := localStorage st |}.

(** Every handler of [App] that can change its state. *)
Inductive AppEvent :=
| ClickThemeToggle
| ClickTab (t : Tab)
| EditText (s : jsstring).

Definition App_step (e : AppEvent) (st : AppState) : AppState :=
  match e with
  | ClickThemeToggle => toggleTheme st
  | ClickTab t => setActiveTab t st
  | EditText s => setTextToSpeak s st
  end.

Definition App_run (es : list AppEvent) (st : AppState) : AppState :=
  fold_left (fun s e => App_step e s) es st.

(** ** Effects on the platform *)

Inductive effect :=
| Alert (msg : string)
| ConsoleError (msg : string)
| ConsoleLog (msg : string)
| SessionClose (session : nat)
| SendRealtimeInput (session : nat) (media : Blob)
| TrackStop (stream : nat)
| NodeDisconnect (node : nat)
| ContextClose (ctx : nat)
| SourceStart (source : nat) (when : float) (buffer : AudioBuffer)
    (rate gain : float)
| SourceStop (source : nat).

Definition is_alert (e : effect) : bool :=
  match e with Alert _ => true | _ => false end.

(** ** The writing lab ([TextPracticeView]) *)

Record PracticeState := {
  isAnalyzing : bool;
  analysis : option JSON;
  isSpeaking : bool;
  audioContextRef : option nat;
  playing : option nat;
  practice_log : list effect
}.

Definition practice_initial : PracticeState :=
  {| isAnalyzing := false; analysis := None; isSpeaking := false;
     audioContextRef := None; playing := None; practice_log := [] |}.

Definition practice_with (a : bool) (r : option JSON) (s : bool)
    (c : option nat) (p : option nat) (l : list effect) : PracticeState :=
  {| isAnalyzing := a; analysis := r; isSpeaking := s;
     audioContextRef := c; playing := p; practice_log := l |}.

(** What awaiting [ai.models.generateContent] yields in [handleAnalyze]:
    a rejection, or a response whose [text] may be undefined. *)
Inductive AnalysisResponse :=
| AnalysisRejected
| AnalysisText (text : option jsstring).

(** [setAnalysis(v)]: the state holds [null] or an object. *)
Definition analysis_of (v : JSON) : option JSON :=
  match v with JNull => None | _ => Some v end.

Definition analyze_alert : string := "Sorry, I couldn't analyze the text right now.".

(** Up to the [await]: [setIsAnalyzing(true); setAnalysis(null)]. *)
Definition handleAnalyze_begin (st : PracticeState) : PracticeState :=
  practice_with true None (isSpeaking st) (audioContextRef st) (playing st)
                (practice_log st).

(** From the [await] on: the [try] body, [catch] and [finally]. *)
Definition handleAnalyze_resume (resp : AnalysisResponse) (st : PracticeState)
  : PracticeState :=
  let failed :=
    practice_with false (analysis st) (isSpeaking st) (audioContextRef st)
      (playing st)
      (practice_log st ++ [ConsoleError "Analysis failed:"; Alert analyze_alert]) in
  let finish (r : option JSON) :=
    practice_with false r (isSpeaking st) (audioContextRef st) (playing st)
      (practice_log st) in
  match resp with
  | AnalysisRejected => failed
  | AnalysisText None => finish (analysis st)
  | AnalysisText (Some resultText) =>
      if truthy resultText then
        match JSON_parse resultText with
        | Some v => finish (analysis_of v)
        | None => failed
        end
      else finish (analysis st)
  end.

Definition handleAnalyze (text : jsstring) (resp : AnalysisResponse)
    (st : PracticeState) : PracticeState :=
  if truthy (trim text) then handleAnalyze_resume resp (handleAnalyze_begin st)
  else st.

(** What awaiting [generateContent] yields in [handleSpeak]: a rejection,
    or a response with
    [candidates?.[0]?.content?.parts?.[0]?.inlineData?.data] possibly
    undefined. *)
Inductive SpeechResponse :=
| SpeechRejected
| SpeechAudio (base64Audio : option jsstring).

Definition speak_alert : string := "Sorry, I couldn't generate the speech for that text.".

(** The decoding that both players apply to a payload:
    [decodeAudioData(decode(base64Audio), audioCtx, 24000, 1)]. *)
Definition decoded (base64Audio : jsstring) : option AudioBuffer :=
  match decode base64Audio with
  | Some bytes => decodeAudioData bytes 24000 1
  | None => None
  end.

Definition handleSpeak_begin (st : PracticeState) : PracticeState :=
  practice_with (isAnalyzing st) (analysis st) true (audioContextRef st)
                (playing st) (practice_log st).

(** [newCtx] and [newSource] name the objects the platform would create;
    [contextClosed] is what [audioContextRef.current.state === 'closed']
    evaluates to when the reference is set.  A context is created when the
    reference is null or its context is closed. *)
Definition handleSpeak_resume (cfg : AppSettings) (contextClosed : bool)
    (newCtx newSource : nat) (resp : SpeechResponse) (st : PracticeState)
  : PracticeState :=
  let failed (c : option nat) :=
    practice_with (isAnalyzing st) (analysis st) false c (playing st)
      (practice_log st ++ [ConsoleError "TTS Error:"; Alert speak_alert]) in
  let reset :=
    practice_with (isAnalyzing st) (analysis st) false (audioContextRef st)
      (playing st) (practice_log st) in
  match resp with
  | SpeechRejected => failed (audioContextRef st)
  | SpeechAudio None => reset
  | SpeechAudio (Some base64Audio) =>
      if truthy base64Audio then
        let audioCtx := match audioContextRef st with
                        | Some c => if contextClosed then newCtx else c
                        | None => newCtx
                        end in
        match decode base64Audio with
        | None => failed (Some audioCtx)
        | Some bytes =>
            match decodeAudioData bytes 24000 1 with
            | None => failed (Some audioCtx)
            | Some audioBuffer =>
                practice_with (isAnalyzing st) (analysis st) (isSpeaking st)
                  (Some audioCtx) (Some newSource)
                  (practice_log st
                   ++ [SourceStart newSource 0 audioBuffer
                         (playbackRate cfg) (volume cfg)])
            end
        end
      else reset
  end.

Definition handleSpeak (cfg : AppSettings) (contextClosed : bool)
    (newCtx newSource : nat) (textToRead : jsstring) (resp : SpeechResponse)
    (st : PracticeState) : PracticeState :=
  if negb (truthy (trim textToRead)) || isSpeaking st then st
  else handleSpeak_resume cfg contextClosed newCtx newSource resp
         (handleSpeak_begin st).

(** [source.onended = () => setIsSpeaking(false)]. *)
Definition speak_onended (st : PracticeState) : PracticeState :=
  practice_with (isAnalyzing st) (analysis st) false (audioContextRef st)
                None (practice_log st).

End Platform.

(** ** The interpreter ([TranslationView]) *)

Record TranscriptEntry := {
  id : Z;
  speaker : string;
  text : jsstring
}.

(** The promise returned by [ai.live.connect]. *)
Inductive SessionPromise :=
| Resolves (session : nat)
| Rejects.

Record TranslationState := {
  isSessionActive : bool;
  transcripts : list TranscriptEntry;
  interimTranscript : jsstring;
  sessionPromiseRef : option SessionPromise;
  inputAudioContextRef : option nat;
  outputAudioContextRef : option nat;
  microphoneStreamRef : option nat;
  scriptProcessorRef : option nat;
  nextStartTimeRef : float;
  audioSourcesRef : list nat;
  currentTextRef : jsstring;
  log : list effect
}.

(** The state of a freshly mounted component. *)
Definition initial_state : TranslationState :=
  {| isSessionActive := false; transcripts := []; interimTranscript := [];
     sessionPromiseRef := None; inputAudioContextRef := None;
     outputAudioContextRef := None; microphoneStreamRef := None;
     scriptProcessorRef := None; nextStartTimeRef := 0; audioSourcesRef := [];
     currentTextRef := []; log := [] |}.

Definition set_isSessionActive (b : bool) (st : TranslationState) :=
  {| isSessionActive := b; transcripts := transcripts st;
     interimTranscript := interimTranscript st;
     sessionPromiseRef := sessionPromiseRef st;
     inputAudioContextRef := inputAudioContextRef st;
     outputAudioContextRef := outputAudioContextRef st;
     microphoneStreamRef := microphoneStreamRef st;
     scriptProcessorRef := scriptProcessorRef st;
     nextStartTimeRef := nextStartTimeRef st;
     audioSourcesRef := audioSourcesRef st;
     currentTextRef := currentTextRef st; log := log st |}.

Definition set_transcripts (l : list TranscriptEntry) (st : TranslationState) :=
  {| isSessionActive := isSessionActive st; transcripts := l;
     interimTranscript := interimTranscript st;
     sessionPromiseRef := sessionPromiseRef st;
     inputAudioContextRef := inputAudioContextRef st;
     outputAudioContextRef := outputAudioContextRef st;
     microphoneStreamRef := microphoneStreamRef st;
     scriptProcessorRef := scriptProcessorRef st;
     nextStartTimeRef := nextStartTimeRef st;
     audioSourcesRef := audioSourcesRef st;
     currentTextRef := currentTextRef st; log := log st |}.

Definition set_interimTranscript (s : jsstring) (st : TranslationState) :=
  {| isSessionActive := isSessionActive st; transcripts := transcripts st;
     interimTranscript := s;
     sessionPromiseRef := sessionPromiseRef st;
     inputAudioContextRef := inputAudioContextRef st;
     outputAudioContextRef := outputAudioContextRef st;
     microphoneStreamRef := microphoneStreamRef st;
     scriptProcessorRef := scriptProcessorRef st;
     nextStartTimeRef := nextStartTimeRef st;
     audioSourcesRef := audioSourcesRef st;
     currentTextRef := currentTextRef st; log := log st |}.

(** The five references that a session owns. *)
Definition set_resources (p : option SessionPromise) (ic oc mic sp : option nat)
    (st : TranslationState) :=
  {| isSessionActive := isSessionActive st; transcripts := transcripts st;
     interimTranscript := interimTranscript st;
     sessionPromiseRef := p;
     inputAudioContextRef := ic;
     outputAudioContextRef := oc;
     microphoneStreamRef := mic;
     scriptProcessorRef := sp;
     nextStartTimeRef := nextStartTimeRef st;
     audioSourcesRef := audioSourcesRef st;
     currentTextRef := currentTextRef st; log := log st |}.

Definition set_nextStartTimeRef (t : float) (st : TranslationState) :=
  {| isSessionActive := isSessionActive st; transcripts := transcripts st;
     interimTranscript := interimTranscript st;
     sessionPromiseRef := sessionPromiseRef st;
     inputAudioContextRef := inputAudioContextRef st;
     outputAudioContextRef := outputAudioContextRef st;
     microphoneStreamRef := microphoneStreamRef st;
     scriptProcessorRef := scriptProcessorRef st;
     nextStartTimeRef := t;
     audioSourcesRef := audioSourcesRef st;
     currentTextRef := currentTextRef st; log := log st |}.

Definition set_audioSourcesRef (l : list nat) (st : TranslationState) :=
  {| isSessionActive := isSessionActive st; transcripts := transcripts st;
     interimTranscript := interimTranscript st;
     sessionPromiseRef := sessionPromiseRef st;
     inputAudioContextRef := inputAudioContextRef st;
     outputAudioContextRef := outputAudioContextRef st;
     microphoneStreamRef := microphoneStreamRef st;
     scriptProcessorRef := scriptProcessorRef st;
     nextStartTimeRef := nextStartTimeRef st;
     audioSourcesRef := l;
     currentTextRef := currentTextRef st; log := log st |}.

Definition set_currentTextRef (s : jsstring) (st : TranslationState) :=
  {| isSessionActive := isSessionActive st; transcripts := transcripts st;
     interimTranscript := interimTranscript st;
     sessionPromiseRef := sessionPromiseRef st;
     inputAudioContextRef := inputAudioContextRef st;
     outputAudioContextRef := outputAudioContextRef st;
     microphoneStreamRef := microphoneStreamRef st;
     scriptProcessorRef := scriptProcessorRef st;
     nextStartTimeRef := nextStartTimeRef st;
     audioSourcesRef := audioSourcesRef st;
     currentTextRef := s; log := log st |}.

(** Appends platform calls to the log. *)
Definition emit (es : list effect) (st : TranslationState) :=
  {| isSessionActive := isSessionActive st; transcripts := transcripts st;
     interimTranscript := interimTranscript st;
     sessionPromiseRef := sessionPromiseRef st;
     inputAudioContextRef := inputAudioContextRef st;
     outputAudioContextRef := outputAudioContextRef st;
     microphoneStreamRef := microphoneStreamRef st;
     scriptProcessorRef := scriptProcessorRef st;
     nextStartTimeRef := nextStartTimeRef st;
     audioSourcesRef := audioSourcesRef st;
     currentTextRef := currentTextRef st; log := log st ++ es |}.

(** *** [handleStopSession] *)

(** [ref.current?.method()]: one call when the reference is set. *)
Definition when_set (r : option nat) (f : nat -> effect) : list effect :=
  match r with Some x => [f x] | None => [] end.

(** The [try]/[catch] around [await sessionPromiseRef.current]. *)
Definition close_session (p : SessionPromise) : list effect :=
  match p with
  | Resolves session => [SessionClose session]
  | Rejects => [ConsoleError "Error closing session:"]
  end.

(** The [finally] block. *)
Definition stop_cleanup (st : TranslationState) : TranslationState :=
  set_isSessionActive false
    (set_resources None None None None None
       (emit (when_set (microphoneStreamRef st) TrackStop
              ++ when_set (scriptProcessorRef st) NodeDisconnect
              ++ when_set (inputAudioContextRef st) ContextClose
              ++ when_set (outputAudioContextRef st) ContextClose) st)).

Definition handleStopSession (st : TranslationState) : TranslationState :=
  match sessionPromiseRef st with
  | None => st
  | Some p => stop_cleanup (emit (close_session p) st)
  end.

(** *** [handleStartSession] *)

Definition start_alert : string := "Could not start microphone. Please check permissions.".

(** Up to [await navigator.mediaDevices.getUserMedia]. *)
Definition handleStartSession_begin (st : TranslationState) : TranslationState :=
  set_nextStartTimeRef 0
    (set_currentTextRef []
       (set_interimTranscript []
          (set_isSessionActive true st))).

(** What the rest of the [try] block obtains from the platform: the
    microphone stream, the two audio contexts and the connection promise. *)
Record Acquired := {
  stream : nat;
  inputCtx : nat;
  outputCtx : nat;
  connection : SessionPromise
}.

(** How the [try] block ends: the microphone is denied; or a later
    statement throws, after the stream and the contexts created so far were
    stored ([new AudioContext] for the input, for the output, then
    [new GoogleGenAI] or [ai.live.connect]); or everything is acquired. *)
Inductive StartOutcome :=
| MicrophoneDenied
| InputContextThrows (stream : nat)
| OutputContextThrows (stream inputCtx : nat)
| ConnectThrows (stream inputCtx outputCtx : nat)
| Started (a : Acquired).

(** The [catch] block. *)
Definition start_failed (st : TranslationState) : TranslationState :=
  set_isSessionActive false
    (emit [ConsoleError "Failed to start session:"; Alert start_alert] st).

(** From the [await] on. *)
Definition handleStartSession_resume (o : StartOutcome)
    (st : TranslationState) : TranslationState :=
  match o with
  | MicrophoneDenied => start_failed st
  | InputContextThrows s =>
      start_failed
        (set_resources (sessionPromiseRef st) (inputAudioContextRef st)
           (outputAudioContextRef st) (Some s) (scriptProcessorRef st) st)
  | OutputContextThrows s ic =>
      start_failed
        (set_resources (sessionPromiseRef st) (Some ic)
           (outputAudioContextRef st) (Some s) (scriptProcessorRef st) st)
  | ConnectThrows s ic oc =>
      start_failed
        (set_resources (sessionPromiseRef st) (Some ic) (Some oc) (Some s)
           (scriptProcessorRef st) st)
  | Started a =>
      set_resources (Some (connection a)) (Some (inputCtx a)) (Some (outputCtx a))
                    (Some (stream a)) (scriptProcessorRef st) st
  end.

(** The states that one start attempt goes through, in order. *)
Definition start_attempt (o : StartOutcome) (st : TranslationState)
  : list TranslationState :=
  let st1 := handleStartSession_begin st in
  [st1; handleStartSession_resume o st1].

(** *** Callbacks of the live session *)

Inductive outcome :=
| Ok (st : TranslationState)
| Throws (st : TranslationState).

Definition state_of (o : outcome) : TranslationState :=
  match o with Ok st => st | Throws st => st end.

(** [onopen]: a TypeError when the input context reference is null. *)
Definition onopen (newProcessor : nat) (st : TranslationState) : outcome :=
  match inputAudioContextRef st with
  | None => Throws st
  | Some _ =>
      Ok (set_resources (sessionPromiseRef st) (inputAudioContextRef st)
            (outputAudioContextRef st) (microphoneStreamRef st)
            (Some newProcessor) st)
  end.

(** [onaudioprocess]: a frame is sent when the session reference is set and
    its promise resolves, and dropped otherwise. *)
Definition onaudioprocess (inputData : Float32Array) (st : TranslationState)
  : TranslationState :=
  match createBlob inputData, sessionPromiseRef st with
  | Some pcmBlob, Some (Resolves session) =>
      emit [SendRealtimeInput session pcmBlob] st
  | _, _ => st
  end.

(** What [message.serverContent?.modelTurn?.parts[0]?.inlineData?.data]
    evaluates to. *)
Inductive ModelTurnAudio :=
| NoModelTurn
| PartsUndefined
| InlineData (base64Audio : option jsstring).

Record LiveServerMessage := {
  inputTranscription : option (option jsstring);
  turnComplete : bool;
  modelTurn : ModelTurnAudio;
  interrupted : bool
}.

(** What the handler reads from the platform while it runs. *)
Record Clock := {
  currentTime : float;
  Date_now : Z;
  newSource : nat
}.

(** [currentTextRef.current += text]; an undefined text appends the word. *)
Definition on_inputTranscription (msg : LiveServerMessage) (st : TranslationState)
  : TranslationState :=
  match inputTranscription msg with
  | None => st
  | Some t =>
      let s := currentTextRef st
               ++ match t with Some s => s | None => js "undefined" end in
      set_interimTranscript s (set_currentTextRef s st)
  end.

Definition on_turnComplete (clk : Clock) (msg : LiveServerMessage)
    (st : TranslationState) : TranslationState :=
  if turnComplete msg then
    let text := currentTextRef st in
    let st1 :=
      if truthy (trim text)
      then set_transcripts
             (transcripts st
              ++ [{| id := Date_now clk; speaker := "user"; text := text |}]) st
      else st in
    set_interimTranscript [] (set_currentTextRef [] st1)
  else st.

(** [Set.prototype.add] and [Set.prototype.delete] on the insertion-ordered
    set of playing sources. *)
Definition set_add (x : nat) (s : list nat) : list nat :=
  if bool_decide (x ∈ s) then s else s ++ [x].

Definition set_delete (x : nat) (s : list nat) : list nat :=
  List.filter (fun y => negb (Nat.eqb x y)) s.

(** Scheduling of one decoded chunk. *)
Definition schedule (cfg : AppSettings) (clk : Clock) (audioBuffer : AudioBuffer)
    (st : TranslationState) : TranslationState :=
  let start := nextStartTimeRef st in
  set_audioSourcesRef (set_add (newSource clk) (audioSourcesRef st))
    (set_nextStartTimeRef
       (start + duration audioBuffer / playbackRate cfg)%float
       (emit [SourceStart (newSource clk) start audioBuffer
                (playbackRate cfg) (volume cfg)] st)).

Definition on_modelTurn (cfg : AppSettings) (clk : Clock)
    (msg : LiveServerMessage) (st : TranslationState) : outcome :=
  match modelTurn msg with
  | NoModelTurn => Ok st
  | PartsUndefined => Throws st
  | InlineData None => Ok st
  | InlineData (Some base64Audio) =>
      if truthy base64Audio then
        match outputAudioContextRef st with
        | None => Throws st
        | Some _ =>
            let st1 :=
              set_nextStartTimeRef
                (Math_max (nextStartTimeRef st) (currentTime clk)) st in
            match decode base64Audio with
            | None => Throws st1
            | Some bytes =>
                match decodeAudioData bytes 24000 1 with
                | None => Throws st1
                | Some audioBuffer => Ok (schedule cfg clk audioBuffer st1)
                end
            end
        end
      else Ok st
  end.

(** One turn of the loop over [audioSourcesRef.current.values()].  The loop
    deletes only the element it is visiting, and a [Set] iterator still
    visits every other element, so the loop is a fold over the elements the
    set held when it began. *)
Definition stop_source (st : TranslationState) (source : nat) : TranslationState :=
  set_audioSourcesRef (set_delete source (audioSourcesRef st))
    (emit [SourceStop source] st).

Definition on_interrupted (msg : LiveServerMessage) (st : TranslationState)
  : TranslationState :=
  if interrupted msg then
    set_nextStartTimeRef 0 (fold_left stop_source (audioSourcesRef st) st)
  else st.

Definition onmessage (cfg : AppSettings) (clk : Clock)
    (msg : LiveServerMessage) (st : TranslationState) : outcome :=
  let st1 := on_inputTranscription msg st in
  let st2 := on_turnComplete clk msg st1 in
  match on_modelTurn cfg clk msg st2 with
  | Throws st3 => Throws st3
  | Ok st3 => Ok (on_interrupted msg st3)
  end.

(** The ['ended'] listener of a scheduled source. *)
Definition source_ended (source : nat) (st : TranslationState) : TranslationState :=
  set_audioSourcesRef (set_delete source (audioSourcesRef st)) st.

Definition onerror (st : TranslationState) : TranslationState :=
  handleStopSession (emit [ConsoleError "Session error:"] st).

Definition onclose (st : TranslationState) : TranslationState :=
  emit [ConsoleLog "Session closed."] st.

(** Every operation of the component that can change its state.  [Stop] is
    the stop button and the effect cleanup, which both call
    [handleStopSession]; the two events of a start are the parts of
    [handleStartSession] before and after its [await]. *)
Inductive Event :=
| StartBegin
| StartResume (o : StartOutcome)
| Stop
| Open (newProcessor : nat)
| AudioProcess (inputData : Float32Array)
| Message (cfg : AppSettings) (clk : Clock) (msg : LiveServerMessage)
| SourceEnded (source : nat)
| Error
| Close.

Definition step (e : Event) (st : TranslationState) : TranslationState :=
  match e with
  | StartBegin => handleStartSession_begin st
  | StartResume o => handleStartSession_resume o st
  | Stop => handleStopSession st
  | Open p => state_of (onopen p st)
  | AudioProcess d => onaudioprocess d st
  | Message cfg clk msg => state_of (onmessage cfg clk msg st)
  | SourceEnded s => source_ended s st
  | Error => onerror st
  | Close => onclose st
  end.

Definition run (es : list Event) (st : TranslationState) : TranslationState :=
  fold_left (fun s e => step e s) es st.

(** ** Vocabulary of the statements *)

(** The audio part of a message is absent, or it is a payload that the
    handler can decode while an output context exists. *)
Definition audio_playable (msg : LiveServerMessage) (st : TranslationState) : bool :=
  match modelTurn msg with
  | NoModelTurn => true
  | PartsUndefined => false
  | InlineData None => true
  | InlineData (Some b) =>
      if truthy b
      then match outputAudioContextRef st, decoded b with
           | Some _, Some _ => true
           | _, _ => false
           end
      else true
  end.

(** Agreement on the fields that hold text. *)
Definition same_text (a b : TranslationState) : Prop :=
  transcripts a = transcripts b
  /\ interimTranscript a = interimTranscript b
  /\ currentTextRef a = currentTextRef b.

(** A message that carries an audio chunk and nothing else. *)
Definition audio_message (base64Audio : jsstring) : LiveServerMessage :=
  {| inputTranscription := None; turnComplete := false;
     modelTurn := InlineData (Some base64Audio); interrupted := false |}.

(** A received chunk: the platform readings when it is handled, its payload
    and the buffer the payload decodes to. *)
Record Chunk := {
  chunk_clock : Clock;
  payload : jsstring;
  chunk_buffer : AudioBuffer
}.

Definition well_formed (c : Chunk) : Prop :=
  truthy (payload c) = true /\ decoded (payload c) = Some (chunk_buffer c).

Definition chunk_events (cfg : AppSettings) (cs : list Chunk) : list Event :=
  map (fun c => Message cfg (chunk_clock c) (audio_message (payload c))) cs.

(** The sum [d1 + ... + dn] of the durations, added from the left as
    doubles. *)
Definition total_duration (cs : list Chunk) : float :=
  fold_left (fun acc c => (acc + duration (chunk_buffer c))%float) cs 0%float.

(** The clock is not past the cursor when a chunk is handled: the reading
    for chunk [i] is at most the cursor that the earlier chunks left. *)
Definition clock_behind (cfg : AppSettings) (st0 : TranslationState)
    (cs : list Chunk) : Prop :=
  forall i c, cs !! i = Some c ->
    (currentTime (chunk_clock c)
     <=? nextStartTimeRef (run (chunk_events cfg (take i cs)) st0))%float
    = true.

(** The [SourceStart] call that a chunk is scheduled with. *)
Definition start_of (cfg : AppSettings) (c : Chunk) (when : float) : effect :=
  SourceStart (newSource (chunk_clock c)) when (chunk_buffer c)
              (playbackRate cfg) (volume cfg).

(** ** Further vocabulary *)

(** The float that [decodeAudioData] stores for a 16-bit sample. *)
Definition pcm_float (z : Z) : Q := Qmake z 32768.

(** A sample of a decoded buffer: in [-1,1). *)
Definition unit_sample (y : Q) : Prop := (-1 <= y)%Q /\ (y < 1)%Q.

(** The [dark] class of the document element follows the theme. *)
Definition class_mirrors_theme (st : AppState) : Prop :=
  darkClass st = match theme (settings st) with dark => true | light => false end.

(** The stored text is one for which [getInitialSettings] does not reach
    the property reads: absent, empty, rejected by [JSON.parse], or [null]. *)
Definition no_usable_record (parse : jsstring -> option JSON)
    (storage : gmap string jsstring) : Prop :=
  storage !! settings_key = None
  \/ storage !! settings_key = Some []
  \/ exists s, storage !! settings_key = Some s
               /\ (parse s = None \/ parse s = Some JNull).

(** No reference of the interpreter holds a resource. *)
Definition released (st : TranslationState) : Prop :=
  sessionPromiseRef st = None
  /\ microphoneStreamRef st = None
  /\ scriptProcessorRef st = None
  /\ inputAudioContextRef st = None
  /\ outputAudioContextRef st = None.

(** A committed entry: spoken by the user, and not blank. *)
Definition committed (e : TranscriptEntry) : Prop :=
  speaker e = "user"%string /\ truthy (trim (text e)) = true.

(** Messages that carry one thing only. *)
Definition transcription_message (t : jsstring) : LiveServerMessage :=
  {| inputTranscription := Some (Some t); turnComplete := false;
     modelTurn := NoModelTurn; interrupted := false |}.

Definition turn_complete_message : LiveServerMessage :=
  {| inputTranscription := None; turnComplete := true;
     modelTurn := NoModelTurn; interrupted := false |}.

(** The state after a successful start whose session has opened. *)
Definition opened (a : Acquired) (newProcessor : nat) (st : TranslationState)
  : TranslationState :=
  state_of (onopen newProcessor
              (handleStartSession_resume (Started a) (handleStartSession_begin st))).

(** What the component keeps true in every state it reaches. *)
Definition consistent (st : TranslationState) : Prop :=
  interimTranscript st = currentTextRef st
  /\ Forall committed (transcripts st)
  /\ NoDup (audioSourcesRef st).

End Implementation.

(** * Properties *)

(** ** Order of doubles *)

Section Doubles.

Lemma SFcompare_self x : x <> S754_nan -> SFcompare x x = Some Eq.
Proof.
  destruct x as [s|s| |s m e]; intros H; try reflexivity; [destruct s; reflexivity | contradiction |].
  cbn. rewrite Z.compare_refl, Pos.compare_cont_refl. destruct s; reflexivity.
Qed.

Lemma SFcompare_refl x y c :
  SFcompare x y = Some c -> SFcompare x x = Some Eq /\ SFcompare y y = Some Eq.
Proof.
  intros H. split; apply SFcompare_self; intros E; rewrite E in H;
    [|destruct x]; discriminate H.
Qed.

Lemma SFcompare_antisym x y c :
  SFcompare x y = Some c -> SFcompare y x = Some (CompOpp c).
Proof.
  destruct x as [sx|sx| |sx mx ex], y as [sy|sy| |sy my ey]; cbn;
    try discriminate; intros [= <-];
    try (repeat match goal with s : bool |- _ => destruct s end; reflexivity).
  assert (E : Pos.compare_cont Eq my mx = CompOpp (Pos.compare_cont Eq mx my))
    by (symmetry; apply (Pos.compare_cont_antisym mx my Eq)).
  rewrite (Z.compare_antisym ex ey), E.
  destruct sx, sy; cbn; try reflexivity;
    destruct (ex ?= ey)%Z; cbn; try reflexivity;
    destruct (Pos.compare_cont Eq mx my); reflexivity.
Qed.

Lemma SFcompare_total x y :
  SFcompare x x = Some Eq -> SFcompare y y = Some Eq ->
  exists c, SFcompare x y = Some c.
Proof.
  destruct x, y; cbn; try discriminate; intros _ _; eexists; reflexivity.
Qed.

Lemma is_nan_false x :
  PrimFloat.is_nan x = false <-> SFcompare (Prim2SF x) (Prim2SF x) = Some Eq.
Proof.
  unfold PrimFloat.is_nan. rewrite FloatAxioms.eqb_spec. unfold SFeqb.
  destruct (SFcompare (Prim2SF x) (Prim2SF x)) as [[| |]|] eqn:E; cbn;
    split; try reflexivity; discriminate.
Qed.

(** The four tests that [Math_max] makes, from the comparison of its
    arguments. *)
Lemma Math_max_compare a b c :
  SFcompare (Prim2SF a) (Prim2SF b) = Some c ->
  Math_max a b
  = match c with
    | Lt => b
    | Gt => a
    | Eq => if get_sign a then b else a
    end.
Proof.
  intros H. unfold Math_max.
  destruct (SFcompare_refl _ _ _ H) as [Ha Hb].
  apply is_nan_false in Ha, Hb. rewrite Ha, Hb. cbn [orb].
  rewrite !ltb_spec. unfold SFltb.
  rewrite H, (SFcompare_antisym _ _ _ H). destruct c; reflexivity.
Qed.

Lemma leb_true x y :
  (x <=? y)%float = true <->
  SFcompare (Prim2SF x) (Prim2SF y) = Some Lt
  \/ SFcompare (Prim2SF x) (Prim2SF y) = Some Eq.
Proof.
  rewrite leb_spec. unfold SFleb.
  destruct (SFcompare (Prim2SF x) (Prim2SF y)) as [[| |]|];
    split; try reflexivity; try discriminate; auto;
    intros [H|H]; discriminate H.
Qed.

Lemma eqb_true x y :
  (x =? y)%float = true <-> SFcompare (Prim2SF x) (Prim2SF y) = Some Eq.
Proof.
  rewrite FloatAxioms.eqb_spec. unfold SFeqb.
  destruct (SFcompare (Prim2SF x) (Prim2SF y)) as [[| |]|];
    split; try reflexivity; discriminate.
Qed.

(** When the clock is not past the cursor, the maximum is the cursor, as a
    number. *)
Lemma Math_max_behind cursor now :
  (now <=? cursor)%float = true ->
  (Math_max cursor now =? cursor)%float = true
  /\ (cursor <=? Math_max cursor now)%float = true.
Proof.
  intros H. apply leb_true in H.
  assert (Hc : exists c, SFcompare (Prim2SF now) (Prim2SF cursor) = Some c
                         /\ (c = Lt \/ c = Eq)).
  { destruct H as [H|H]; eexists; split; eauto. }
  destruct Hc as (c & Hc & Hlt).
  destruct (SFcompare_refl _ _ _ Hc) as [Hn Hcur].
  pose proof (SFcompare_antisym _ _ _ Hc) as Hrev.
  rewrite (Math_max_compare _ _ _ Hrev).
  destruct Hlt as [-> | ->]; cbn [CompOpp].
  - split; [apply eqb_true, Hcur | apply leb_true; right; exact Hcur].
  - destruct (get_sign cursor).
    + split; [apply eqb_true, Hc | apply leb_true; right; exact Hrev].
    + split; [apply eqb_true, Hcur | apply leb_true; right; exact Hcur].
Qed.

(** When the cursor is not past the clock, the maximum is the clock, as a
    number. *)
Lemma Math_max_ahead cursor now :
  (cursor <=? now)%float = true ->
  (Math_max cursor now =? now)%float = true.
Proof.
  intros H. apply leb_true in H.
  assert (Hc : exists c, SFcompare (Prim2SF cursor) (Prim2SF now) = Some c
                         /\ (c = Lt \/ c = Eq)).
  { destruct H as [H|H]; eexists; split; eauto. }
  destruct Hc as (c & Hc & Hlt).
  destruct (SFcompare_refl _ _ _ Hc) as [Hcur Hn].
  rewrite (Math_max_compare _ _ _ Hc).
  destruct Hlt as [-> | ->].
  - apply eqb_true, Hn.
  - destruct (get_sign cursor); apply eqb_true; [exact Hn | exact Hc].
Qed.

(** The maximum of two numbers is below neither. *)
Lemma Math_max_bounds a b :
  PrimFloat.is_nan a = false -> PrimFloat.is_nan b = false ->
  (a <=? Math_max a b)%float = true /\ (b <=? Math_max a b)%float = true.
Proof.
  intros Ha Hb. apply is_nan_false in Ha, Hb.
  destruct (SFcompare_total _ _ Ha Hb) as [c Hc].
  pose proof (SFcompare_antisym _ _ _ Hc) as Hrev.
  rewrite (Math_max_compare _ _ _ Hc).
  destruct c; cbn [CompOpp] in Hrev.
  - destruct (get_sign a); split; apply leb_true; auto.
  - split; apply leb_true; auto.
  - split; apply leb_true; auto.
Qed.

End Doubles.

(** ** Base64 round trip *)

Module Base64Facts.
Import Base64.

Lemma list_ind3 {A} (P : list A -> Prop) :
  P [] -> (forall a, P [a]) -> (forall a b, P [a; b]) ->
  (forall a b c r, P r -> P (a :: b :: c :: r)) ->
  forall l, P l.
Proof.
  intros H0 H1 H2 H3. fix IH 1.
  intros [|a [|b [|c r]]].
  - exact H0.
  - apply H1.
  - apply H2.
  - apply H3, IH.
Qed.

Lemma index_of_char_of i : 0 <= i < 64 -> index_of (char_of i) = Some i.
Proof.
  intros Hi.
  assert (Hall : forallb (fun n => bool_decide
                   (index_of (char_of (Z.of_nat n)) = Some (Z.of_nat n)))
                   (seq 0 64) = true) by (vm_compute; reflexivity).
  rewrite forallb_forall in Hall.
  assert (Hin : In (Z.to_nat i) (seq 0 64)) by (apply in_seq; lia).
  specialize (Hall _ Hin). rewrite Z2Nat.id in Hall by lia.
  apply bool_decide_eq_true in Hall. exact Hall.
Qed.

Lemma index_of_plain c i :
  index_of c = Some i -> c <> pad /\ is_ascii_whitespace c = false.
Proof.
  unfold index_of, pad, is_ascii_whitespace. intros H. split.
  - intros ->. discriminate H.
  - repeat match type of H with
           | (if ?b then _ else _) = _ => destruct b eqn:?
           end; try discriminate; lia.
Qed.

Lemma char_of_plain i :
  0 <= i < 64 -> char_of i <> pad /\ is_ascii_whitespace (char_of i) = false.
Proof. intros Hi. eapply index_of_plain, index_of_char_of, Hi. Qed.

Ltac sextet_range := unfold is_byte in *; Z.div_mod_to_equations; lia.

Lemma strip_char i r :
  0 <= i < 64 -> strip_padding (char_of i :: r) = char_of i :: strip_padding r.
Proof.
  intros Hi. destruct (char_of_plain i Hi) as [Hp _].
  simpl. destruct (Z.eqb_spec (char_of i) pad); [contradiction | reflexivity].
Qed.

Lemma sextets_char i r :
  0 <= i < 64 ->
  sextets (char_of i :: r) =
    match sextets r with Some l => Some (i :: l) | None => None end.
Proof. intros Hi. simpl. rewrite index_of_char_of by exact Hi. reflexivity. Qed.

Lemma encode_no_whitespace bs :
  Forall is_byte bs ->
  List.filter (fun c => negb (is_ascii_whitespace c)) (encode_bytes bs)
  = encode_bytes bs.
Proof.
  assert (Hc : forall i r, 0 <= i < 64 ->
            List.filter (fun c => negb (is_ascii_whitespace c)) (char_of i :: r)
            = char_of i :: List.filter (fun c => negb (is_ascii_whitespace c)) r).
  { intros i r Hi. cbn [List.filter].
    destruct (char_of_plain i Hi) as [_ ->]. reflexivity. }
  induction bs as [|a|a b|a b c r IH] using list_ind3; intros Hb.
  - reflexivity.
  - inversion_clear Hb. cbn [encode_bytes].
    rewrite !Hc by sextet_range. reflexivity.
  - inversion_clear Hb as [|? ? ? Hb']. inversion_clear Hb'.
    cbn [encode_bytes]. rewrite !Hc by sextet_range. reflexivity.
  - inversion_clear Hb as [|? ? ? Hb1]. inversion_clear Hb1 as [|? ? ? Hb2].
    inversion_clear Hb2. cbn [encode_bytes].
    rewrite !Hc by sextet_range. rewrite IH by assumption. reflexivity.
Qed.

Lemma encode_length bs : (Z.of_nat (length (encode_bytes bs)) mod 4 = 0).
Proof.
  induction bs as [|a|a b|a b c r IH] using list_ind3; try reflexivity.
  cbn [encode_bytes length]. rewrite !Nat2Z.inj_succ.
  Z.div_mod_to_equations. lia.
Qed.

Lemma decode_encode_bytes bs :
  Forall is_byte bs ->
  exists l, sextets (strip_padding (encode_bytes bs)) = Some l
            /\ decode_sextets l = Some bs.
Proof.
  induction bs as [|a|a b|a b c r IH] using list_ind3; intros Hb.
  - exists []. split; reflexivity.
  - inversion_clear Hb. cbn [encode_bytes].
    rewrite !strip_char by sextet_range.
    rewrite !sextets_char by sextet_range.
    eexists. split; [reflexivity|]. cbn [decode_sextets].
    do 2 f_equal. sextet_range.
  - inversion_clear Hb as [|? ? ? Hb']. inversion_clear Hb'.
    cbn [encode_bytes].
    rewrite !strip_char by sextet_range.
    rewrite !sextets_char by sextet_range.
    eexists. split; [reflexivity|]. cbn [decode_sextets].
    repeat f_equal; sextet_range.
  - inversion_clear Hb as [|? ? ? Hb1]. inversion_clear Hb1 as [|? ? ? Hb2].
    inversion_clear Hb2 as [|? ? ? Hr].
    destruct (IH Hr) as (l & Hl & Hd).
    cbn [encode_bytes].
    rewrite !strip_char by sextet_range.
    rewrite !sextets_char by sextet_range. rewrite Hl.
    eexists. split; [reflexivity|]. cbn [decode_sextets]. rewrite Hd.
    repeat f_equal; sextet_range.
Qed.

(** [atob(btoa(s)) = s] for every binary string. *)
Lemma atob_btoa bs :
  Forall is_byte bs ->
  exists e, btoa bs = Some e /\ atob e = Some bs.
Proof.
  intros Hb. exists (encode_bytes bs). split.
  - unfold btoa.
    replace (forallb _ bs) with true; [reflexivity|].
    symmetry. apply forallb_forall. intros b Hin.
    rewrite Forall_forall in Hb. specialize (Hb b).
    unfold is_byte in Hb.
    assert (0 <= b < 256) by (apply Hb; apply list_elem_of_In; exact Hin).
    lia.
  - unfold atob. rewrite encode_no_whitespace by exact Hb.
    rewrite encode_length. cbn [Z.eqb].
    destruct (decode_encode_bytes bs Hb) as (l & -> & Hd). exact Hd.
Qed.

End Base64Facts.

(** ** PCM codec *)

Section Codec.

Context {wa : WebAudio}.

Lemma wrap16_range z : is_int16 (wrap16 z).
Proof. unfold is_int16, wrap16. Z.div_mod_to_equations. lia. Qed.

Lemma wrap16_id z : is_int16 z -> wrap16 z = z.
Proof. unfold is_int16, wrap16. intros H. Z.div_mod_to_equations. lia. Qed.

Lemma quantize_range x : is_int16 (quantize x).
Proof. apply wrap16_range. Qed.

Lemma bytes_of_int16_bytes z : Forall is_byte (bytes_of_int16 z).
Proof.
  unfold bytes_of_int16, is_byte.
  repeat constructor; Z.div_mod_to_equations; lia.
Qed.

Lemma int16_bytes_roundtrip z :
  is_int16 z ->
  int16_of_bytes ((z mod 65536) mod 256) ((z mod 65536) / 256) = z.
Proof.
  unfold is_int16, int16_of_bytes. intros H.
  destruct (Z.ltb_spec ((z mod 65536) mod 256 + 256 * ((z mod 65536) / 256)) 32768);
    Z.div_mod_to_equations; lia.
Qed.

Lemma Uint8Array_of_Int16Array_bytes a :
  Forall is_byte (Uint8Array_of_Int16Array a).
Proof.
  induction a as [|z a IH]; [constructor|].
  apply Forall_app. split; [apply bytes_of_int16_bytes | exact IH].
Qed.

Lemma Int16Array_bytes_roundtrip a :
  Forall is_int16 a ->
  Int16Array_of_Uint8Array (Uint8Array_of_Int16Array a) = Some a.
Proof.
  induction 1 as [|z a Hz _ IH]; [reflexivity|].
  cbn [Uint8Array_of_Int16Array flat_map bytes_of_int16 app Int16Array_of_Uint8Array].
  fold (Uint8Array_of_Int16Array a). rewrite IH.
  rewrite int16_bytes_roundtrip by exact Hz. reflexivity.
Qed.

Lemma ToUint8_bytes bs : Forall is_byte bs -> map ToUint8 bs = bs.
Proof.
  induction 1 as [|b bs Hb _ IH]; [reflexivity|].
  cbn [map]. rewrite IH. f_equal.
  unfold ToUint8, is_byte in *. apply Z.mod_small. exact Hb.
Qed.

(** [decode(encode(bytes)) = bytes]. *)
Lemma decode_encode bytes :
  Forall is_byte bytes ->
  exists e, encode bytes = Some e /\ decode e = Some bytes.
Proof.
  intros Hb. destruct (Base64Facts.atob_btoa bytes Hb) as (e & He & Ha).
  exists e. split; [exact He|].
  unfold decode. rewrite Ha, ToUint8_bytes by exact Hb. reflexivity.
Qed.

(** What [decodeAudioData] builds from the 16-bit samples. *)
Lemma decodeAudioData_Some bytes a rate n :
  Int16Array_of_Uint8Array bytes = Some a ->
  (1 <= n <= length a)%nat ->
  createBuffer_supports n rate = true ->
  decodeAudioData bytes rate n
  = Some {| numberOfChannels := n; sampleRate := rate;
            channelData :=
              map (fun channel =>
                     map (channel_sample a n channel)
                         (seq 0 (Nat.div (length a) n)))
                  (seq 0 n) |}.
Proof.
  intros Ha Hn Hs. unfold decodeAudioData. rewrite Ha, Hs.
  assert (Hq : (1 <= length a / n)%nat).
  { apply Nat.div_le_lower_bound; lia. }
  destruct (Nat.eqb_spec n 0); [lia|].
  destruct (Nat.eqb_spec (length a / n) 0); [lia|]. reflexivity.
Qed.

(** The encoder is total, and the decoder recovers the quantized samples. *)
Lemma roundtrip_quantized x rate n :
  (1 <= n <= length x)%nat ->
  createBuffer_supports n rate = true ->
  roundtrip x rate n
  = Some {| numberOfChannels := n; sampleRate := rate;
            channelData :=
              map (fun channel =>
                     map (channel_sample (map quantize x) n channel)
                         (seq 0 (Nat.div (length x) n)))
                  (seq 0 n) |}.
Proof.
  intros Hn Hs. unfold roundtrip, createBlob.
  destruct (decode_encode (Uint8Array_of_Int16Array (map quantize x)))
    as (e & -> & Hd).
  { apply Uint8Array_of_Int16Array_bytes. }
  cbn [data]. rewrite Hd.
  rewrite (decodeAudioData_Some _ (map quantize x)).
  - rewrite length_map. reflexivity.
  - apply Int16Array_bytes_roundtrip.
    apply Forall_forall. intros z Hz.
    apply list_elem_of_In, in_map_iff in Hz. destruct Hz as (s & <- & _).
    apply quantize_range.
  - rewrite length_map. exact Hn.
  - exact Hs.
Qed.

Lemma truncQ_scaled s :
  (-1 <= s)%Q -> (s < 1)%Q ->
  let t := truncQ (s * 32768)%Q in
  is_int16 t /\ within_tolerance (Qmake t 32768) s.
Proof.
  destruct s as [p q]. unfold Qle, Qlt. cbn [Qnum Qden]. intros Hlo Hhi.
  cbv zeta. unfold truncQ. cbn [Qmult Qnum Qden inject_Z].
  rewrite Pos.mul_1_r.
  set (t := Z.quot (p * 32768) (Z.pos q)).
  assert (Ht : p * 32768 = Z.pos q * t + Z.rem (p * 32768) (Z.pos q))
    by (apply Z.quot_rem'; lia).
  pose proof (Z.rem_bound_abs (p * 32768) (Z.pos q) ltac:(lia)) as Hr.
  assert (Hsgn : 0 <= Z.rem (p * 32768) (Z.pos q) * (p * 32768))
    by (apply Z.rem_sign_mul; lia).
  set (r := Z.rem (p * 32768) (Z.pos q)) in *.
  assert (Hq : 0 < Z.pos q) by lia.
  set (d := Z.pos q) in *.
  assert (Hrange : -32768 <= t < 32768) by nia.
  split; [exact Hrange|].
  unfold within_tolerance. apply Qabs_Qle_condition.
  unfold Qle, Qminus, Qplus, Qopp. cbn [Qnum Qden].
  fold d. rewrite !Pos2Z.inj_mul. fold d.
  split; nia.
Qed.

Lemma quantize_error s :
  (-1 <= s)%Q -> (s < 1)%Q -> within_tolerance (Qmake (quantize s) 32768) s.
Proof.
  intros Hlo Hhi. destruct (truncQ_scaled s Hlo Hhi) as [Hr He].
  unfold quantize, ToInt16. rewrite wrap16_id by exact Hr. exact He.
Qed.

End Codec.

Section RoundTrip.

Context {wa : WebAudio}.

Lemma lookup_map_seq {A} (f : nat -> A) n i :
  (i < n)%nat -> map f (seq 0 n) !! i = Some (f i).
Proof.
  intros Hi. change (map f (seq 0 n)) with (f <$> seq 0 n).
  rewrite list_lookup_fmap, lookup_seq_lt by exact Hi. reflexivity.
Qed.

Lemma frame_index_lt len n c i :
  (c < n)%nat -> (i < len / n)%nat -> (i * n + c < len)%nat.
Proof.
  intros Hc Hi.
  assert (Hn : n <> 0%nat) by lia.
  pose proof (Nat.Div0.mul_div_le len n) as Hle.
  assert (S i <= len / n)%nat by lia.
  assert (n * S i <= n * (len / n))%nat by (apply Nat.mul_le_mono_l; lia).
  lia.
Qed.




Example roundtrip_half :
  let wa := required_support in
  roundtrip [1 # 2; - (1 # 2)]%Q 24000 1
  = Some {| numberOfChannels := 1; sampleRate := 24000;
            channelData := [[16384 # 32768; (-16384) # 32768]%Q] |}.
Proof. vm_compute. reflexivity. Qed.

Example blob_half :
  option_map data (createBlob [1 # 2; - (1 # 2)]%Q) = Some (js "AEAAwA==").
Proof. vm_compute. reflexivity. Qed.

Example roundtrip_stereo :
  let wa := required_support in
  option_map channelData
    (roundtrip [1 # 4; 1 # 2; - (1 # 4); - (1 # 2)]%Q 24000 2)
  = Some [[8192 # 32768; (-8192) # 32768]; [16384 # 32768; (-16384) # 32768]]%Q.
Proof. vm_compute. reflexivity. Qed.

End RoundTrip.


(** ** Settings persistence *)

Section SettingsFacts.

Context {wa : WebAudio}.

Variable JSON_parse : jsstring -> option JSON.

Lemma App_step_storage e st : localStorage (App_step e st) = localStorage st.
Proof. destruct e; reflexivity. Qed.

(** No handler of [App] writes the settings record. *)
Lemma App_run_storage es st : localStorage (App_run es st) = localStorage st.
Proof.
  revert st. induction es as [|e es IH]; intros st; [reflexivity|].
  cbn [App_run fold_left]. fold (App_run es (App_step e st)).
  rewrite IH. apply App_step_storage.
Qed.

Lemma toggleTheme_changes st : theme (settings (toggleTheme st)) <> theme (settings st).
Proof. cbn. destruct (theme (settings st)); discriminate. Qed.

(** C2 (at the failing input): on a first visit with a light system theme,
    one click on the theme button makes the settings dark while the stored
    record stays absent, so the next start is light again. *)
Theorem theme_toggle_not_persisted :
  let st0 := App_mount JSON_parse ∅ false in
  let st1 := App_step ClickThemeToggle st0 in
  theme (settings st0) = light
  /\ theme (settings st1) = dark
  /\ localStorage st1 !! settings_key = None
  /\ theme (settings (App_mount JSON_parse (localStorage st1) false)) = light.
Proof. cbv zeta. repeat split. Qed.

End SettingsFacts.

(** ** The writing lab *)

Section SpeakFacts.

Context {wa : WebAudio}.

Lemma decoded_unfold b :
  decoded b = match decode b with
              | Some bytes => decodeAudioData bytes 24000 1
              | None => None
              end.
Proof. reflexivity. Qed.

(** C4 (as amended): a synthesis request that is rejected, or whose audio
    payload cannot be decoded, raises the alert and resets [isSpeaking];
    a response without audio payload resets [isSpeaking] and raises no
    alert. *)
Theorem handleSpeak_failure (cfg : AppSettings) (contextClosed : bool)
    (newCtx newSource : nat) (textToRead : jsstring) (resp : SpeechResponse) (st : PracticeState) :
  truthy (trim textToRead) = true ->
  isSpeaking st = false ->
  let st' := handleSpeak cfg contextClosed newCtx newSource textToRead resp st in
  ((resp = SpeechRejected
    \/ exists b, resp = SpeechAudio (Some b) /\ truthy b = true
                 /\ decoded b = None) ->
   isSpeaking st' = false
   /\ practice_log st'
      = practice_log st ++ [ConsoleError "TTS Error:"; Alert speak_alert])
  /\ ((resp = SpeechAudio None \/ resp = SpeechAudio (Some [])) ->
      isSpeaking st' = false /\ practice_log st' = practice_log st).
Proof.
  intros Ht Hs. cbv zeta. unfold handleSpeak. rewrite Ht, Hs. cbn [negb orb].
  split.
  - intros [-> | (b & -> & Hb & Hd)]; [split; reflexivity|].
    unfold handleSpeak_resume. rewrite Hb.
    rewrite decoded_unfold in Hd.
    destruct (decode b) as [bytes|]; [rewrite Hd|]; split; reflexivity.
  - intros [-> | ->]; split; reflexivity.
Qed.


(** C4 (as stated) fails for a response without audio payload: the request
    is issued, [isSpeaking] is reset, and no alert is raised. *)
Lemma missing_audio_raises_no_alert :
  let wa := required_support in
  let st' := handleSpeak (fallback_settings false) false 0 0 (js "hola")
               (SpeechAudio None) practice_initial in
  truthy (trim (js "hola")) = true
  /\ isSpeaking practice_initial = false
  /\ isSpeaking st' = false
  /\ List.filter is_alert (practice_log st') = [].
Proof. cbv zeta. repeat split. Qed.

End SpeakFacts.

Lemma handleSpeak_failure_witness :
  let wa := required_support in
  let st' := handleSpeak (fallback_settings false) false 0 0 (js "hola")
               SpeechRejected practice_initial in
  ((SpeechRejected = SpeechRejected
    \/ exists b, SpeechRejected = SpeechAudio (Some b) /\ truthy b = true
                 /\ decoded b = None) ->
   isSpeaking st' = false
   /\ practice_log st'
      = practice_log practice_initial
        ++ [ConsoleError "TTS Error:"; Alert speak_alert])
  /\ ((SpeechRejected = SpeechAudio None
       \/ SpeechRejected = SpeechAudio (Some [])) ->
      isSpeaking st' = false /\ practice_log st' = practice_log practice_initial).
Proof.
  apply (handleSpeak_failure (wa := required_support) (fallback_settings false)
           false 0 0 (js "hola") SpeechRejected practice_initial).
  - reflexivity.
  - reflexivity.
Defined.

Section AnalyzeFacts.

Context {wa : WebAudio}.

Variable JSON_parse : jsstring -> option JSON.

(** C5 (as amended): a request that is rejected, or whose response text
    [JSON.parse] rejects, raises the alert, leaves the analysis null and
    clears the pending flag; an empty or missing response text leaves the
    analysis null and clears the pending flag without an alert; a text
    that parses is stored as parsed, whatever fields it has. *)
Theorem handleAnalyze_response (textToSpeak : jsstring)
    (resp : AnalysisResponse) (st : PracticeState) :
  truthy (trim textToSpeak) = true ->
  let st' := handleAnalyze JSON_parse textToSpeak resp st in
  isAnalyzing st' = false
  /\ ((resp = AnalysisRejected
       \/ exists t, resp = AnalysisText (Some t) /\ truthy t = true
                    /\ JSON_parse t = None) ->
      analysis st' = None
      /\ practice_log st'
         = practice_log st ++ [ConsoleError "Analysis failed:"; Alert analyze_alert])
  /\ ((resp = AnalysisText None \/ resp = AnalysisText (Some [])) ->
      analysis st' = None /\ practice_log st' = practice_log st)
  /\ (forall t v, resp = AnalysisText (Some t) -> truthy t = true ->
                  JSON_parse t = Some v ->
      analysis st' = analysis_of v /\ practice_log st' = practice_log st).
Proof.
  intros Ht. cbv zeta. unfold handleAnalyze. rewrite Ht.
  split; [|split; [|split]].
  - destruct resp as [|[t|]]; cbn; try reflexivity.
    destruct (truthy t); [destruct (JSON_parse t)|]; reflexivity.
  - intros [-> | (t & -> & Hb & Hp)]; [split; reflexivity|].
    cbn. rewrite Hb, Hp. split; reflexivity.
  - intros [-> | ->]; split; reflexivity.
  - intros t v -> Hb Hp. cbn. rewrite Hb, Hp. split; reflexivity.
Qed.

End AnalyzeFacts.

Lemma handleAnalyze_response_witness :
  let parse := fun _ : jsstring => @None JSON in
  let st' := handleAnalyze parse (js "hola") (AnalysisText (Some (js "{")))
               practice_initial in
  isAnalyzing st' = false
  /\ analysis st' = None
  /\ practice_log st' = [ConsoleError "Analysis failed:"; Alert analyze_alert].
Proof.
  cbv zeta.
  destruct (handleAnalyze_response (fun _ => None) (js "hola")
              (AnalysisText (Some (js "{"))) practice_initial)
    as (Ha & Hfail & _).
  - reflexivity.
  - destruct Hfail as [Hn Hl].
    + right. exists (js "{"). repeat split.
    + repeat split; assumption.
Defined.

(** C5 (as stated) fails for an empty response text: the request is issued,
    the analysis stays null and the pending flag is cleared, but no alert
    informs the user. *)
Lemma empty_analysis_response_is_silent :
  let st' := handleAnalyze (fun _ => None) (js "hola") (AnalysisText (Some []))
               practice_initial in
  truthy (trim (js "hola")) = true
  /\ analysis st' = None
  /\ isAnalyzing st' = false
  /\ List.filter is_alert (practice_log st') = [].
Proof. cbv zeta. repeat split. Qed.

(** ** Session lifecycle *)

Section Lifecycle.

Context {wa : WebAudio}.

(** C3 (as amended): when the microphone is denied, the attempt ends with
    the flag false and the alert raised, and no state of the attempt holds
    a session or an audio resource that was not there before; the flag is
    true from the start action until the failure is reported. *)
Theorem start_denied_returns_to_idle (st : TranslationState) :
  let st1 := handleStartSession_begin st in
  let st2 := handleStartSession_resume MicrophoneDenied st1 in
  start_attempt MicrophoneDenied st = [st1; st2]
  /\ isSessionActive st1 = true
  /\ isSessionActive st2 = false
  /\ log st2 = log st ++ [ConsoleError "Failed to start session:"; Alert start_alert]
  /\ Forall (fun s => sessionPromiseRef s = sessionPromiseRef st
                      /\ microphoneStreamRef s = microphoneStreamRef st
                      /\ inputAudioContextRef s = inputAudioContextRef st
                      /\ outputAudioContextRef s = outputAudioContextRef st
                      /\ scriptProcessorRef s = scriptProcessorRef st)
            (start_attempt MicrophoneDenied st).
Proof. cbv zeta. repeat split. repeat constructor. Qed.

(** C3 (as stated) fails: in the first state of a denied attempt from the
    idle state the flag is true while no session exists. *)
Lemma start_denied_flag_raised :
  exists s, s ∈ start_attempt MicrophoneDenied initial_state
            /\ isSessionActive s = true
            /\ sessionPromiseRef s = None.
Proof.
  exists (handleStartSession_begin initial_state).
  split; [apply list_elem_of_here|]. split; reflexivity.
Qed.

Lemma handleStopSession_idle st :
  sessionPromiseRef st = None -> handleStopSession st = st.
Proof. intros H. unfold handleStopSession. rewrite H. reflexivity. Qed.

Lemma handleStopSession_clears st :
  sessionPromiseRef (handleStopSession st) = None.
Proof.
  unfold handleStopSession.
  destruct (sessionPromiseRef st) eqn:E; [reflexivity | exact E].
Qed.

(** C9: with no session reference, stop returns the state as it is,
    effect log included; and a second stop changes nothing. *)
Theorem stop_idle_noop (st : TranslationState) :
  (sessionPromiseRef st = None -> handleStopSession st = st)
  /\ handleStopSession (handleStopSession st) = handleStopSession st.
Proof.
  split; [apply handleStopSession_idle|].
  apply handleStopSession_idle, handleStopSession_clears.
Qed.

Lemma stop_idle_noop_witness :
  handleStopSession initial_state = initial_state
  /\ handleStopSession (handleStopSession initial_state)
     = handleStopSession initial_state.
Proof.
  destruct (stop_idle_noop initial_state) as [H1 H2].
  split; [apply H1; reflexivity | exact H2].
Defined.

Example stop_active_session :
  let st := handleStartSession_resume
              (Started {| stream := 1; inputCtx := 2; outputCtx := 3;
                          connection := Resolves 4 |})
              (handleStartSession_begin initial_state) in
  log (handleStopSession st)
  = [SessionClose 4; TrackStop 1; ContextClose 2; ContextClose 3]
  /\ isSessionActive (handleStopSession st) = false
  /\ handleStopSession (handleStopSession st) = handleStopSession st.
Proof. cbv zeta. split; [|split]; vm_compute; reflexivity. Qed.

End Lifecycle.

(** ** Messages of the live session *)

Section Messages.

Context {wa : WebAudio}.

Variable cfg : AppSettings.

Lemma on_modelTurn_text clk msg st :
  same_text (state_of (on_modelTurn cfg clk msg st)) st.
Proof.
  unfold on_modelTurn.
  destruct (modelTurn msg) as [| |[b|]]; try solve [repeat split].
  destruct (truthy b); [|repeat split].
  destruct (outputAudioContextRef st); [|repeat split].
  destruct (decode b) as [bytes|]; [|repeat split].
  destruct (decodeAudioData bytes 24000 1); repeat split.
Qed.

Lemma fold_stop_source_frame l st :
  let st' := fold_left stop_source l st in
  same_text st' st
  /\ log st' = log st ++ map SourceStop l
  /\ audioSourcesRef st'
     = fold_left (fun s x => set_delete x s) l (audioSourcesRef st)
  /\ nextStartTimeRef st' = nextStartTimeRef st
  /\ isSessionActive st' = isSessionActive st
  /\ sessionPromiseRef st' = sessionPromiseRef st
  /\ outputAudioContextRef st' = outputAudioContextRef st.
Proof.
  revert st. induction l as [|x l IH]; intros st; cbv zeta.
  - cbn. rewrite app_nil_r. repeat split.
  - cbn [fold_left map].
    destruct (IH (stop_source st x)) as ((Ht & Hi & Hc) & Hl & Hs & Hn & Ha & Hp & Ho).
    rewrite Hl, Hs. cbn. rewrite <- app_assoc. repeat split; assumption.
Qed.

Lemma set_delete_comm x y s :
  set_delete x (set_delete y s) = set_delete y (set_delete x s).
Proof.
  unfold set_delete. induction s as [|z s IH]; [reflexivity|].
  cbn [List.filter].
  destruct (Nat.eqb y z) eqn:Ey, (Nat.eqb x z) eqn:Ex; cbn [negb List.filter];
    rewrite ?Ey, ?Ex; cbn [negb]; rewrite IH; reflexivity.
Qed.

Lemma fold_delete_cons l : forall x s,
  fold_left (fun s x => set_delete x s) l (set_delete x s)
  = set_delete x (fold_left (fun s x => set_delete x s) l s).
Proof.
  induction l as [|y l IH]; intros x s; [reflexivity|].
  cbn [fold_left]. rewrite set_delete_comm. apply IH.
Qed.

(** Deleting every element of a set, one by one, empties it. *)
Lemma fold_delete_self l :
  fold_left (fun s x => set_delete x s) l l = [].
Proof.
  induction l as [|x l IH]; [reflexivity|].
  cbn [fold_left]. unfold set_delete at 2. cbn [List.filter].
  rewrite Nat.eqb_refl. cbn [negb].
  fold (set_delete x l). rewrite fold_delete_cons, IH. reflexivity.
Qed.

Lemma on_interrupted_flush msg st :
  interrupted msg = true ->
  let st' := on_interrupted msg st in
  audioSourcesRef st' = []
  /\ nextStartTimeRef st' = 0%float
  /\ log st' = log st ++ map SourceStop (audioSourcesRef st)
  /\ same_text st' st.
Proof.
  intros Hi. cbv zeta. unfold on_interrupted. rewrite Hi.
  destruct (fold_stop_source_frame (audioSourcesRef st) st)
    as (Ht & Hl & Hs & _).
  cbn. rewrite Hs, fold_delete_self. repeat split; try assumption; apply Ht.
Qed.

Lemma on_interrupted_text msg st : same_text (on_interrupted msg st) st.
Proof.
  destruct (interrupted msg) eqn:Hi.
  - apply on_interrupted_flush, Hi.
  - unfold on_interrupted. rewrite Hi. repeat split.
Qed.

Lemma audio_playable_Ok clk msg st :
  audio_playable msg st = true ->
  exists st', on_modelTurn cfg clk msg st = Ok st'.
Proof.
  unfold audio_playable, on_modelTurn, decoded.
  destruct (modelTurn msg) as [| |[b|]]; try discriminate; eauto.
  destruct (truthy b); eauto.
  destruct (outputAudioContextRef st); try discriminate.
  destruct (decode b) as [bytes|]; try discriminate.
  destruct (decodeAudioData bytes 24000 1); try discriminate. eauto.
Qed.


Lemma onmessage_text clk msg st :
  same_text (state_of (onmessage cfg clk msg st))
            (on_turnComplete clk msg (on_inputTranscription msg st)).
Proof.
  unfold onmessage.
  set (st2 := on_turnComplete clk msg (on_inputTranscription msg st)).
  pose proof (on_modelTurn_text clk msg st2) as (H1 & H2 & H3).
  destruct (on_modelTurn cfg clk msg st2) as [st3|st3]; cbn [state_of] in *.
  - destruct (on_interrupted_text msg st3) as (I1 & I2 & I3).
    repeat split; congruence.
  - repeat split; assumption.
Qed.

Lemma truthy_false s : truthy s = false <-> s = [].
Proof. destruct s; split; intros H; try reflexivity; discriminate. Qed.

Lemma on_inputTranscription_transcripts msg st :
  transcripts (on_inputTranscription msg st) = transcripts st.
Proof. unfold on_inputTranscription. destruct (inputTranscription msg); reflexivity. Qed.

(** C8: on a turn-complete signal the utterance buffer and the interim
    transcript are cleared in every case; the transcript list is unchanged
    when the accumulated utterance trims to nothing, and grows by exactly
    one entry holding the accumulated utterance otherwise. *)
Theorem turn_complete_commits (clk : Clock) (msg : LiveServerMessage)
    (st : TranslationState) :
  turnComplete msg = true ->
  let text := currentTextRef (on_inputTranscription msg st) in
  let st' := state_of (onmessage cfg clk msg st) in
  currentTextRef st' = []
  /\ interimTranscript st' = []
  /\ (trim text = [] -> transcripts st' = transcripts st)
  /\ (trim text <> [] ->
      transcripts st'
      = transcripts st
        ++ [{| id := Date_now clk; speaker := "user"; text := text |}]).
Proof.
  intros Htc. cbv zeta.
  destruct (onmessage_text clk msg st) as (Ht & Hi & Hc).
  rewrite Ht, Hi, Hc. unfold on_turnComplete. rewrite Htc.
  pose proof (on_inputTranscription_transcripts msg st) as Htr.
  set (st1 := on_inputTranscription msg st) in *.
  split; [reflexivity|]. split; [reflexivity|]. split.
  - intros Hempty. apply truthy_false in Hempty. rewrite Hempty.
    cbn. exact Htr.
  - intros Hne. destruct (truthy (trim (currentTextRef st1))) eqn:E.
    + cbn. rewrite Htr. reflexivity.
    + apply truthy_false in E. contradiction.
Qed.

End Messages.

Lemma turn_complete_commits_witness :
  let wa := required_support in
  let cfg := fallback_settings false in
  let clk := {| currentTime := 0; Date_now := 1700000000000; newSource := 0 |} in
  let msg := {| inputTranscription := Some (Some (js "hola "));
                turnComplete := true; modelTurn := NoModelTurn;
                interrupted := false |} in
  let st' := state_of (onmessage cfg clk msg initial_state) in
  currentTextRef st' = []
  /\ interimTranscript st' = []
  /\ transcripts st'
     = [{| id := 1700000000000; speaker := "user"; text := js "hola " |}].
Proof.
  cbv zeta.
  destruct (turn_complete_commits (wa := required_support) (fallback_settings false)
              {| currentTime := 0; Date_now := 1700000000000; newSource := 0 |}
              {| inputTranscription := Some (Some (js "hola "));
                 turnComplete := true; modelTurn := NoModelTurn;
                 interrupted := false |}
              initial_state)
    as (H1 & H2 & _ & H4).
  - reflexivity.
  - split; [exact H1|]. split; [exact H2|].
    apply H4. vm_compute. discriminate.
Defined.



Example interrupt_two_sources :
  let msg := {| inputTranscription := None; turnComplete := false;
                modelTurn := NoModelTurn; interrupted := true |} in
  let st := set_nextStartTimeRef 5 (set_audioSourcesRef [3; 5]%nat initial_state) in
  on_interrupted msg st
  = emit [SourceStop 3; SourceStop 5] initial_state.
Proof. vm_compute. reflexivity. Qed.

(** ** Transcripts *)

Section Transcripts.

Context {wa : WebAudio}.

Lemma handleStopSession_transcripts st :
  transcripts (handleStopSession st) = transcripts st.
Proof. unfold handleStopSession. destruct (sessionPromiseRef st); reflexivity. Qed.

Lemma on_turnComplete_transcripts clk msg st :
  transcripts st `prefix_of` transcripts (on_turnComplete clk msg st).
Proof.
  unfold on_turnComplete. destruct (turnComplete msg); [|reflexivity].
  destruct (truthy (trim (currentTextRef st))); cbn.
  - eexists. reflexivity.
  - reflexivity.
Qed.

Lemma step_transcripts e st :
  transcripts st `prefix_of` transcripts (step e st).
Proof.
  destruct e as [|o| |p|d|cfg clk msg|s| |]; cbn [step].
  - reflexivity.
  - destruct o; reflexivity.
  - rewrite handleStopSession_transcripts. reflexivity.
  - unfold onopen. destruct (inputAudioContextRef st); reflexivity.
  - unfold onaudioprocess.
    destruct (createBlob d), (sessionPromiseRef st) as [[|]|]; reflexivity.
  - destruct (onmessage_text cfg clk msg st) as (-> & _).
    etransitivity; [|apply on_turnComplete_transcripts].
    rewrite on_inputTranscription_transcripts. reflexivity.
  - reflexivity.
  - unfold onerror. rewrite handleStopSession_transcripts. reflexivity.
  - reflexivity.
Qed.

Lemma run_transcripts es : forall st,
  transcripts st `prefix_of` transcripts (run es st).
Proof.
  induction es as [|e es IH]; intros st; [reflexivity|].
  cbn [run fold_left]. fold (run es (step e st)).
  etransitivity; [apply step_transcripts | apply IH].
Qed.

(** C10: a start resets the interim transcript, the utterance buffer and
    the cursor, raises the flag, and leaves every other field, the
    transcript list among them, as it was; whatever the microphone
    answers, the list is the same after the attempt; and no operation of
    the component, nor any sequence of them, removes or changes an entry:
    the list before is a prefix of the list after. *)
Theorem transcripts_persist :
  (forall st,
      handleStartSession_begin st
      = {| isSessionActive := true; transcripts := transcripts st;
           interimTranscript := [];
           sessionPromiseRef := sessionPromiseRef st;
           inputAudioContextRef := inputAudioContextRef st;
           outputAudioContextRef := outputAudioContextRef st;
           microphoneStreamRef := microphoneStreamRef st;
           scriptProcessorRef := scriptProcessorRef st;
           nextStartTimeRef := 0;
           audioSourcesRef := audioSourcesRef st;
           currentTextRef := []; log := log st |})
  /\ (forall o st,
         Forall (fun s => transcripts s = transcripts st) (start_attempt o st))
  /\ (forall e st, transcripts st `prefix_of` transcripts (step e st))
  /\ (forall es st, transcripts st `prefix_of` transcripts (run es st)).
Proof.
  split; [reflexivity|]. split; [|split].
  - intros o st. unfold start_attempt.
    constructor; [reflexivity|]. constructor; [|constructor].
    destruct o; reflexivity.
  - apply step_transcripts.
  - intros es st. apply run_transcripts.
Qed.

End Transcripts.

(** ** Playback scheduler *)

Section Scheduler.

Context {wa : WebAudio}.

Variable cfg : AppSettings.

(** What the handler does with a chunk that decodes. *)
Lemma chunk_step c st :
  well_formed c ->
  is_Some (outputAudioContextRef st) ->
  step (Message cfg (chunk_clock c) (audio_message (payload c))) st
  = schedule cfg (chunk_clock c) (chunk_buffer c)
      (set_nextStartTimeRef
         (Math_max (nextStartTimeRef st) (currentTime (chunk_clock c))) st).
Proof.
  intros [Ht Hd] [o Ho]. cbn [step]. unfold onmessage.
  change (on_inputTranscription (audio_message (payload c)) st) with st.
  change (on_turnComplete (chunk_clock c) (audio_message (payload c)) st) with st.
  unfold on_modelTurn. cbn [modelTurn audio_message].
  rewrite Ht, Ho. unfold decoded in Hd.
  destruct (decode (payload c)) as [bytes|]; [|discriminate].
  rewrite Hd. reflexivity.
Qed.

Lemma run_snoc es e st : run (es ++ [e]) st = step e (run es st).
Proof. unfold run. rewrite fold_left_app. reflexivity. Qed.

Lemma chunk_events_snoc l c :
  chunk_events cfg (l ++ [c])
  = chunk_events cfg l
    ++ [Message cfg (chunk_clock c) (audio_message (payload c))].
Proof. unfold chunk_events. rewrite List.map_app. reflexivity. Qed.

(** Scheduling chunks leaves the output context in place. *)
Lemma run_chunks_context st0 : forall cs,
  is_Some (outputAudioContextRef st0) ->
  Forall well_formed cs ->
  outputAudioContextRef (run (chunk_events cfg cs) st0)
  = outputAudioContextRef st0.
Proof.
  intros cs Ho. induction cs as [|c l IH] using rev_ind; intros Hwf.
  - reflexivity.
  - apply Forall_app in Hwf. destruct Hwf as [Hl Hc].
    apply Forall_cons in Hc. destruct Hc as [Hc _].
    rewrite chunk_events_snoc, run_snoc.
    rewrite chunk_step; [|exact Hc|rewrite (IH Hl); exact Ho].
    cbn. apply IH, Hl.
Qed.


End Scheduler.



(** The example of the specification: chunks of 1.0 s and 2.0 s at rate 1.0
    from cursor 0 move the cursor to 1.0 and then to 3.0. *)
Example schedule_one_then_two_seconds :
  let cfg := fallback_settings false in
  let clk := {| currentTime := 0; Date_now := 0; newSource := 1 |} in
  let clk' := {| currentTime := 0; Date_now := 0; newSource := 2 |} in
  let one := {| numberOfChannels := 1; sampleRate := 24000;
                channelData := [repeat 0%Q (Z.to_nat 24000)] |} in
  let two := {| numberOfChannels := 1; sampleRate := 24000;
                channelData := [repeat 0%Q (Z.to_nat 48000)] |} in
  let st1 := schedule cfg clk one initial_state in
  let st2 := schedule cfg clk' two st1 in
  nextStartTimeRef st1 = 1%float /\ nextStartTimeRef st2 = 3%float.
Proof. cbv zeta. split; vm_compute; reflexivity. Qed.

(** * Further properties of the code *)

(** ** Codec helpers *)

Section CodecMore.

Context {wa : WebAudio}.

Lemma list_ind_pairs {A} (P : list A -> Prop) :
  P [] -> (forall a, P [a]) ->
  (forall a b r, P r -> P (a :: b :: r)) ->
  forall l, P l.
Proof.
  intros H0 H1 H2. fix IH 1.
  intros [|a [|b r]].
  - exact H0.
  - apply H1.
  - apply H2, IH.
Qed.

Lemma encode_bytes_length bs :
  length (Base64.encode_bytes bs) = (4 * ((length bs + 2) / 3))%nat.
Proof.
  induction bs as [|a|a b|a b c r IH] using Base64Facts.list_ind3;
    try reflexivity.
  cbn [Base64.encode_bytes length]. rewrite IH.
  replace (S (S (S (length r))) + 2)%nat with (1 * 3 + (length r + 2))%nat by lia.
  rewrite Nat.div_add_l by lia. lia.
Qed.

(** X1: [decode(encode(bytes))] is [bytes] for every byte array, and the
    text that [encode] produces has four characters for every group of
    three bytes, the last group padded. *)
Theorem encode_decode_bytes (bytes : Uint8Array) :
  Forall is_byte bytes ->
  exists e, encode bytes = Some e
            /\ decode e = Some bytes
            /\ length e = (4 * ((length bytes + 2) / 3))%nat.
Proof.
  intros Hb. destruct (decode_encode bytes Hb) as (e & He & Hd).
  exists e. split; [exact He|]. split; [exact Hd|].
  unfold encode, Base64.btoa in He.
  destruct (forallb _ bytes); [|discriminate].
  injection He as <-. apply encode_bytes_length.
Qed.

Lemma encode_decode_bytes_witness :
  exists e, encode [0; 64; 0; 192] = Some e
            /\ decode e = Some [0; 64; 0; 192]
            /\ length e = (4 * ((4 + 2) / 3))%nat.
Proof.
  apply (encode_decode_bytes [0; 64; 0; 192]).
  repeat constructor; unfold is_byte; lia.
Defined.

Lemma Int16Array_of_bytes_inv bytes : forall a,
  Forall is_byte bytes ->
  Int16Array_of_Uint8Array bytes = Some a ->
  Forall is_int16 a
  /\ Uint8Array_of_Int16Array a = bytes
  /\ length bytes = (2 * length a)%nat.
Proof.
  induction bytes as [|lo|lo hi r IH] using list_ind_pairs;
    intros a Hb Ha.
  - injection Ha as <-. repeat split. constructor.
  - discriminate Ha.
  - cbn [Int16Array_of_Uint8Array] in Ha.
    inversion_clear Hb as [|? ? Hlo Hb']. inversion_clear Hb' as [|? ? Hhi Hr].
    destruct (Int16Array_of_Uint8Array r) as [a'|] eqn:E; [|discriminate].
    injection Ha as <-. destruct (IH a' Hr eq_refl) as (Hi & Hu & Hl).
    unfold is_byte in Hlo, Hhi.
    assert (H16 : is_int16 (int16_of_bytes lo hi)).
    { unfold is_int16, int16_of_bytes.
      destruct (Z.ltb_spec (lo + 256 * hi) 32768); lia. }
    split; [constructor; assumption|]. split.
    + cbn [Uint8Array_of_Int16Array flat_map bytes_of_int16 app].
      fold (Uint8Array_of_Int16Array a'). rewrite Hu.
      unfold int16_of_bytes.
      destruct (Z.ltb_spec (lo + 256 * hi) 32768);
        f_equal; [|f_equal| |f_equal]; Z.div_mod_to_equations; lia.
    + cbn [length]. lia.
Qed.

Lemma Int16Array_of_bytes_None bytes :
  Int16Array_of_Uint8Array bytes = None <-> Nat.odd (length bytes) = true.
Proof.
  induction bytes as [|lo|lo hi r IH] using list_ind_pairs.
  - split; discriminate.
  - split; reflexivity.
  - cbn [Int16Array_of_Uint8Array length].
    change (Nat.odd (S (S (length r)))) with (Nat.odd (length r)).
    rewrite <- IH. destruct (Int16Array_of_Uint8Array r); split; congruence.
Qed.

Lemma Int16Array_of_bytes_length bytes : forall a,
  Int16Array_of_Uint8Array bytes = Some a -> length a = (length bytes / 2)%nat.
Proof.
  induction bytes as [|lo|lo hi r IH] using list_ind_pairs;
    intros a Ha.
  - injection Ha as <-. reflexivity.
  - discriminate Ha.
  - cbn [Int16Array_of_Uint8Array] in Ha.
    destruct (Int16Array_of_Uint8Array r) as [a'|]; [|discriminate].
    injection Ha as <-. cbn [length]. rewrite (IH a' eq_refl).
    replace (S (S (length r))) with (1 * 2 + length r)%nat by lia.
    rewrite Nat.div_add_l by lia. lia.
Qed.

(** X2: [decodeAudioData] fails exactly when the byte length is odd, the
    channel count is zero, there are fewer 16-bit samples than channels, or
    [createBuffer] of the implementation does not support the channel count
    or the sample rate. *)
Theorem decodeAudioData_fails_iff (bytes : Uint8Array) (rate : float) (n : nat) :
  decodeAudioData bytes rate n = None
  <-> Nat.odd (length bytes) = true \/ n = 0%nat \/ (length bytes / 2 < n)%nat
      \/ createBuffer_supports n rate = false.
Proof.
  unfold decodeAudioData.
  destruct (Int16Array_of_Uint8Array bytes) as [a|] eqn:Ea.
  - rewrite (Int16Array_of_bytes_length bytes a Ea).
    assert (Hodd : Nat.odd (length bytes) <> true).
    { intros H. apply Int16Array_of_bytes_None in H. congruence. }
    set (m := (length bytes / 2)%nat).
    destruct (Nat.eqb_spec n 0) as [->|Hn]; cbn [orb].
    + split; [intros _; right; left; reflexivity | reflexivity].
    + destruct (Nat.eqb_spec (m / n) 0) as [Hq|Hq]; cbn [orb].
      * split; [intros _|reflexivity]. right. right. left.
        apply Nat.div_small_iff in Hq; [exact Hq | exact Hn].
      * destruct (createBuffer_supports n rate) eqn:Es; cbn [negb].
        -- split; [discriminate|].
           intros [H|[H|[H|H]]]; [contradiction|contradiction| |discriminate H].
           exfalso. apply Hq. apply Nat.div_small. exact H.
        -- split; [intros _|reflexivity]. right. right. right. reflexivity.
  - split; [intros _; left; apply Int16Array_of_bytes_None, Ea | reflexivity].
Qed.

End CodecMore.

Section CodecExact.

Context {wa : WebAudio}.

Lemma quantize_pcm_float z : is_int16 z -> quantize (pcm_float z) = z.
Proof.
  intros Hz. unfold quantize, ToInt16, pcm_float, truncQ.
  cbn [Qmult Qnum Qden inject_Z].
  change (Z.pos (32768 * 1)) with 32768.
  rewrite Z.quot_mul by lia. apply wrap16_id, Hz.
Qed.

Lemma pcm_float_unit z : is_int16 z -> unit_sample (pcm_float z).
Proof.
  unfold is_int16, unit_sample, pcm_float, Qle, Qlt. cbn [Qnum Qden]. lia.
Qed.

(** The single channel that [decodeAudioData] builds from mono data. *)
Lemma mono_channel a :
  map (channel_sample a 1 0) (seq 0 (length a / 1)) = map pcm_float a.
Proof.
  rewrite Nat.div_1_r. apply list_eq. intros i.
  change (map (channel_sample a 1 0) (seq 0 (length a)))
    with (channel_sample a 1 0 <$> seq 0 (length a)).
  change (map pcm_float a) with (pcm_float <$> a).
  unfold Int16Array in *. rewrite !list_lookup_fmap.
  destruct (a !! i) as [z|] eqn:E.
  - rewrite lookup_seq_lt by (eapply lookup_lt_Some, E).
    cbn. unfold channel_sample, pcm_float.
    replace (i * 1 + 0)%nat with i by lia.
    rewrite (nth_lookup_Some a i 0 z E). reflexivity.
  - rewrite lookup_seq_ge by (apply lookup_ge_None, E). reflexivity.
Qed.

Lemma decodeAudioData_mono bytes rate buf :
  decodeAudioData bytes rate 1 = Some buf ->
  exists a, Int16Array_of_Uint8Array bytes = Some a
            /\ buf = {| numberOfChannels := 1; sampleRate := rate;
                        channelData := [map pcm_float a] |}.
Proof.
  unfold decodeAudioData.
  destruct (Int16Array_of_Uint8Array bytes) as [a|]; [|discriminate].
  destruct ((1 =? 0)%nat || (length a / 1 =? 0)%nat
            || negb (createBuffer_supports 1 rate)); [discriminate|].
  intros [= <-]. exists a. split; [reflexivity|].
  cbn [seq map]. rewrite mono_channel. reflexivity.
Qed.

(** X3: decoding PCM bytes to floats and encoding the floats again gives
    the bytes back: for mono data that [decodeAudioData] accepts,
    [createBlob] of the decoded channel is the base64 text of the very same
    bytes. *)
Theorem reencode_decoded (bytes : Uint8Array) (rate : float) (buf : AudioBuffer) :
  Forall is_byte bytes ->
  decodeAudioData bytes rate 1 = Some buf ->
  exists ch blob,
    channelData buf = [ch]
    /\ createBlob ch = Some blob
    /\ encode bytes = Some (data blob)
    /\ decode (data blob) = Some bytes.
Proof.
  intros Hb Hd. destruct (decodeAudioData_mono bytes rate buf Hd) as (a & Ha & ->).
  destruct (Int16Array_of_bytes_inv bytes a Hb Ha) as (Hi & Hu & _).
  assert (Hq : map quantize (map pcm_float a) = a).
  { clear Ha Hu Hd. induction Hi as [|z a Hz _ IH]; [reflexivity|].
    cbn [map]. rewrite quantize_pcm_float by exact Hz. rewrite IH. reflexivity. }
  destruct (decode_encode bytes Hb) as (e & He & Hde).
  exists (map pcm_float a), {| data := e; mimeType := js "audio/pcm;rate=16000" |}.
  split; [reflexivity|]. split; [|split; [exact He | exact Hde]].
  unfold createBlob. rewrite Hq, Hu, He. reflexivity.
Qed.




(** X5: the encoder does not clamp: a sample in [1,3) is stored after a
    wrap by a full turn of the 16-bit range, so it decodes to within
    1/32768 of the sample minus 2. *)
Theorem overflow_wraps (s : Q) :
  (1 <= s)%Q -> (s < 3)%Q ->
  within_tolerance (pcm_float (quantize s)) (s - 2).
Proof.
  destruct s as [p q]. unfold Qle, Qlt. cbn [Qnum Qden]. intros Hlo Hhi.
  unfold quantize, ToInt16, truncQ, pcm_float.
  cbn [Qmult Qnum Qden inject_Z]. rewrite Pos.mul_1_r.
  set (t := Z.quot (p * 32768) (Z.pos q)).
  assert (Ht : p * 32768 = Z.pos q * t + Z.rem (p * 32768) (Z.pos q))
    by (apply Z.quot_rem'; lia).
  pose proof (Z.rem_bound_abs (p * 32768) (Z.pos q) ltac:(lia)) as Hr.
  assert (Hsgn : 0 <= Z.rem (p * 32768) (Z.pos q) * (p * 32768))
    by (apply Z.rem_sign_mul; lia).
  set (r := Z.rem (p * 32768) (Z.pos q)) in *.
  assert (Hq : 0 < Z.pos q) by lia.
  set (d := Z.pos q) in *.
  assert (Hrange : 32768 <= t < 98304) by nia.
  assert (Hw : wrap16 t = t - 65536).
  { unfold wrap16. Z.div_mod_to_equations. lia. }
  rewrite Hw. unfold within_tolerance. apply Qabs_Qle_condition.
  unfold Qle, Qminus, Qplus, Qopp. cbn [Qnum Qden].
  fold d. rewrite !Pos2Z.inj_mul. fold d.
  split; nia.
Qed.

Lemma overflow_wraps_witness :
  within_tolerance (pcm_float (quantize (3 # 2))) ((3 # 2) - 2).
Proof.
  apply (overflow_wraps (3 # 2)); unfold Qle, Qlt; simpl; lia.
Defined.

End CodecExact.


Lemma reencode_decoded_witness :
  exists ch blob,
    channelData {| numberOfChannels := 1; sampleRate := 24000;
                   channelData := [[pcm_float 16384; pcm_float (-16384)]] |}
    = [ch]
    /\ createBlob ch = Some blob
    /\ encode [0; 64; 0; 192] = Some (data blob)
    /\ decode (data blob) = Some [0; 64; 0; 192].
Proof.
  apply (reencode_decoded (wa := required_support) [0; 64; 0; 192] 24000).
  - repeat constructor; unfold is_byte; lia.
  - vm_compute. reflexivity.
Defined.

(** ** Settings *)

Section SettingsMore.

Context {wa : WebAudio}.

Variable JSON_parse : jsstring -> option JSON.

(** X6: without a usable stored record (none, an empty one, one that
    [JSON.parse] rejects, or [null]) the initial settings are the defaults:
    volume 1, rate 1, and the theme the system prefers. *)
Theorem getInitialSettings_fallback (storage : gmap string jsstring)
    (prefersDarkMode : bool) :
  no_usable_record JSON_parse storage ->
  getInitialSettings JSON_parse storage prefersDarkMode
  = {| theme := if prefersDarkMode then dark else light;
       volume := 1; playbackRate := 1 |}.
Proof.
  intros H. unfold getInitialSettings, fallback_settings.
  destruct H as [H | [H | (s & H & [Hp | Hp])]]; unfold jsstring in *;
    rewrite H; try reflexivity;
    destruct (truthy s); try reflexivity; rewrite Hp; reflexivity.
Qed.

Lemma jsstring_eqb_eq a b : jsstring_eqb a b = true <-> a = b.
Proof. unfold jsstring_eqb. apply bool_decide_eq_true. Qed.

(** X7: a stored record that parses to anything but [null] decides the
    settings alone, whatever the system prefers: the theme is dark exactly
    when the [theme] property is the string "dark", and the volume and the
    rate are the stored numbers, or 1 where the property is not a number. *)
Theorem getInitialSettings_stored (storage : gmap string jsstring)
    (s : jsstring) (v : JSON) (prefersDarkMode : bool) :
  storage !! settings_key = Some s ->
  truthy s = true ->
  JSON_parse s = Some v ->
  v <> JNull ->
  let r := getInitialSettings JSON_parse storage prefersDarkMode in
  r = getInitialSettings JSON_parse storage (negb prefersDarkMode)
  /\ (theme r = dark <-> get_prop v "theme" = Some (Some (JStr (js "dark"))))
  /\ (forall t vol rate,
        get_prop v "theme" = Some t -> get_prop v "volume" = Some vol ->
        get_prop v "playbackRate" = Some rate ->
        volume r = number_or_one vol /\ playbackRate r = number_or_one rate).
Proof.
  intros Hs Ht Hp Hv. cbv zeta. unfold getInitialSettings. rewrite Hs, Ht, Hp.
  assert (Hg : forall k, exists o, get_prop v k = Some o).
  { intros k. destruct v; try contradiction; eexists; reflexivity. }
  destruct (Hg "theme"%string) as [t Et], (Hg "volume"%string) as [vo Ev],
    (Hg "playbackRate"%string) as [ra Er].
  rewrite Et, Ev, Er. split; [reflexivity|]. split.
  - cbn [theme]. split.
    + intros Hd. destruct t as [[| | |st| |]|]; try discriminate Hd.
      destruct (jsstring_eqb st (js "dark")) eqn:E; [|discriminate Hd].
      apply jsstring_eqb_eq in E. subst st. reflexivity.
    + intros [= ->].
      replace (jsstring_eqb (js "dark") (js "dark")) with true; [reflexivity|].
      symmetry. apply jsstring_eqb_eq. reflexivity.
  - intros t' vol rate [= <-] [= <-] [= <-]. split; reflexivity.
Qed.

(** X8: no handler of [App], and no sequence of them, changes the volume
    or the playback rate: the only settings update is the theme toggle. *)
Theorem volume_and_rate_fixed (es : list AppEvent) (st : AppState) :
  volume (settings (App_run es st)) = volume (settings st)
  /\ playbackRate (settings (App_run es st)) = playbackRate (settings st).
Proof.
  revert st. induction es as [|e es IH]; intros st; [split; reflexivity|].
  cbn [App_run fold_left]. fold (App_run es (App_step e st)).
  destruct (IH (App_step e st)) as [-> ->]. destruct e; split; reflexivity.
Qed.

Lemma App_step_mirrors e st :
  class_mirrors_theme st -> class_mirrors_theme (App_step e st).
Proof.
  unfold class_mirrors_theme. intros H. destruct e; cbn; [|exact H|exact H].
  destruct (theme (settings st)); reflexivity.
Qed.

(** X9: from the first render on, after any sequence of handlers, the
    [dark] class of the document is set exactly when the theme is dark. *)
Theorem dark_class_follows_theme (storage : gmap string jsstring)
    (prefersDarkMode : bool) (es : list AppEvent) :
  class_mirrors_theme (App_run es (App_mount JSON_parse storage prefersDarkMode)).
Proof.
  assert (H0 : class_mirrors_theme (App_mount JSON_parse storage prefersDarkMode))
    by reflexivity.
  revert H0. generalize (App_mount JSON_parse storage prefersDarkMode).
  induction es as [|e es IH]; intros st H; [exact H|].
  cbn [App_run fold_left]. apply IH, App_step_mirrors, H.
Qed.

End SettingsMore.

(** X10: two clicks on the theme button restore the state of the
    component, in every state where the class follows the theme. *)
Theorem toggleTheme_twice (st : AppState) :
  class_mirrors_theme st -> toggleTheme (toggleTheme st) = st.
Proof.
  unfold class_mirrors_theme.
  destruct st as [tab [th vol rate] txt cls sto]. cbn.
  intros ->. destruct th; reflexivity.
Qed.

Lemma toggleTheme_twice_witness :
  let st := App_mount (fun _ => None) ∅ true in
  toggleTheme (toggleTheme st) = st.
Proof.
  apply (toggleTheme_twice (App_mount (fun _ => None) ∅ true)). reflexivity.
Defined.

Lemma getInitialSettings_fallback_witness :
  getInitialSettings (fun _ => None) (<[settings_key := js "{oops"]> ∅) true
  = {| theme := dark; volume := 1; playbackRate := 1 |}.
Proof.
  apply (getInitialSettings_fallback (fun _ => None)
           (<[settings_key := js "{oops"]> ∅) true).
  right. right. exists (js "{oops"). split; [reflexivity | left; reflexivity].
Defined.

Lemma getInitialSettings_stored_witness :
  let parse := fun _ : jsstring =>
                 Some (JObj [(js "theme", JStr (js "dark")); (js "volume", JNum 0.5)]) in
  let storage : gmap string jsstring := <[settings_key := js "{}"]> ∅ in
  let r := getInitialSettings parse storage false in
  r = getInitialSettings parse storage true
  /\ theme r = dark.
Proof.
  cbv zeta.
  destruct (getInitialSettings_stored
              (fun _ => Some (JObj [(js "theme", JStr (js "dark"));
                                    (js "volume", JNum 0.5)]))
              (<[settings_key := js "{}"]> ∅) (js "{}")
              (JObj [(js "theme", JStr (js "dark")); (js "volume", JNum 0.5)])
              false)
    as (H1 & H2 & _).
  - reflexivity.
  - reflexivity.
  - reflexivity.
  - discriminate.
  - split; [exact H1|]. apply H2. reflexivity.
Defined.

(** ** White space *)

Section Whitespace.

Context {wa : WebAudio}.

Lemma trim_start_nil s :
  trim_start s = [] <-> forallb is_js_whitespace s = true.
Proof.
  induction s as [|c s IH]; [split; reflexivity|].
  cbn [trim_start forallb]. destruct (is_js_whitespace c); cbn [andb].
  - exact IH.
  - split; discriminate.
Qed.

Lemma trim_start_suffix s : exists p, s = p ++ trim_start s
                                      /\ forallb is_js_whitespace p = true.
Proof.
  induction s as [|c s (p & Hp & Hw)]; [exists []; split; reflexivity|].
  cbn [trim_start]. destruct (is_js_whitespace c) eqn:E.
  - exists (c :: p). cbn [app forallb]. rewrite E, Hw. split; [|reflexivity].
    f_equal. exact Hp.
  - exists []. split; reflexivity.
Qed.

Lemma forallb_rev {A} (f : A -> bool) l : forallb f (rev l) = forallb f l.
Proof.
  induction l as [|a l IH]; [reflexivity|].
  cbn [rev forallb]. rewrite forallb_app, IH. cbn. rewrite andb_true_r.
  apply andb_comm.
Qed.

(** [trim] gives the empty string exactly on strings of white space. *)
Lemma trim_nil s : trim s = [] <-> forallb is_js_whitespace s = true.
Proof.
  unfold trim. split.
  - intros H. apply (f_equal (@rev Z)) in H. rewrite rev_involutive in H.
    cbn [rev] in H. apply trim_start_nil in H. rewrite forallb_rev in H.
    destruct (trim_start_suffix s) as (p & Hp & Hw).
    rewrite Hp, forallb_app, Hw, H. reflexivity.
  - intros H. apply trim_start_nil in H. rewrite H. reflexivity.
Qed.

Lemma blank_not_truthy s :
  forallb is_js_whitespace s = true -> truthy (trim s) = false.
Proof. intros H. apply trim_nil in H. rewrite H. reflexivity. Qed.

End Whitespace.

(** ** The writing lab, continued *)

Section PracticeMore.

Context {wa : WebAudio}.

Variable JSON_parse : jsstring -> option JSON.

(** X11: a draft made of white space only (the empty draft included)
    issues no request: neither handler changes the state or calls the
    platform, whatever the service would have answered. *)
Theorem blank_draft_ignored (cfg : AppSettings) (contextClosed : bool)
    (newCtx newSource : nat)
    (draft : jsstring) (a : AnalysisResponse) (s : SpeechResponse)
    (st : PracticeState) :
  forallb is_js_whitespace draft = true ->
  handleAnalyze JSON_parse draft a st = st
  /\ handleSpeak cfg contextClosed newCtx newSource draft s st = st.
Proof.
  intros H. apply blank_not_truthy in H.
  unfold handleAnalyze, handleSpeak. rewrite H. split; reflexivity.
Qed.

(** X12: a request never leaves the previous analysis on display: after
    it the analysis is null, or it is what [JSON.parse] made of the new
    response; and the request does not touch the playback state. *)
Theorem handleAnalyze_replaces (draft : jsstring) (resp : AnalysisResponse)
    (st : PracticeState) :
  truthy (trim draft) = true ->
  let st' := handleAnalyze JSON_parse draft resp st in
  (analysis st' = None
   \/ exists t v, resp = AnalysisText (Some t) /\ JSON_parse t = Some v
                  /\ v <> JNull /\ analysis st' = Some v)
  /\ isSpeaking st' = isSpeaking st
  /\ audioContextRef st' = audioContextRef st
  /\ playing st' = playing st.
Proof.
  intros Ht. cbv zeta. unfold handleAnalyze. rewrite Ht.
  destruct resp as [|[t|]]; cbn; try (split; [left; reflexivity | repeat split]).
  destruct (truthy t); [|split; [left; reflexivity | repeat split]].
  destruct (JSON_parse t) as [v|] eqn:Ep;
    [|split; [left; reflexivity | repeat split]].
  split; [|repeat split].
  destruct v; cbn; try (left; reflexivity);
    right; eexists _, _; (split; [reflexivity|]); (split; [exact Ep|]);
    (split; [discriminate | reflexivity]).
Qed.

End PracticeMore.

Lemma blank_draft_ignored_witness :
  let wa := required_support in
  handleAnalyze (fun _ => None) (js "  ") AnalysisRejected practice_initial
  = practice_initial
  /\ handleSpeak (fallback_settings false) false 0 0 (js "  ") SpeechRejected
       practice_initial
     = practice_initial.
Proof.
  apply (blank_draft_ignored (wa := required_support) (fun _ => None)
           (fallback_settings false) false 0 0
           (js "  ") AnalysisRejected SpeechRejected practice_initial).
  reflexivity.
Defined.

Lemma handleAnalyze_replaces_witness :
  let st := practice_with false (Some (JStr (js "old"))) false None None [] in
  let st' := handleAnalyze (fun _ => None) (js "hola") (AnalysisText (Some (js "{")))
               st in
  analysis st' = None.
Proof.
  cbv zeta.
  destruct (handleAnalyze_replaces (fun _ => None) (js "hola")
              (AnalysisText (Some (js "{")))
              (practice_with false (Some (JStr (js "old"))) false None None []))
    as ([H | (t & v & _ & Hp & _)] & _).
  - reflexivity.
  - exact H.
  - discriminate Hp.
Defined.

Section SpeakMore.

Context {wa : WebAudio}.

Variable cfg : AppSettings.


(** X14: the writing lab keeps its audio context unless it is closed:
    with the reference set and the context not closed, no request replaces
    it, whatever the response; a closed context is replaced by a new one
    when a request is issued and its response carries a payload; and the
    reference never holds anything but the old or the new context. *)
Theorem handleSpeak_keeps_context (contextClosed : bool) (newCtx newSource c : nat)
    (textToRead : jsstring) (resp : SpeechResponse) (st : PracticeState) :
  audioContextRef st = Some c ->
  let st' := handleSpeak cfg contextClosed newCtx newSource textToRead resp st in
  (contextClosed = false -> audioContextRef st' = Some c)
  /\ (contextClosed = true -> truthy (trim textToRead) = true ->
      isSpeaking st = false ->
      forall b, resp = SpeechAudio (Some b) -> truthy b = true ->
      audioContextRef st' = Some newCtx)
  /\ (audioContextRef st' = Some c \/ audioContextRef st' = Some newCtx).
Proof.
  intros Hc. cbv zeta. unfold handleSpeak. split; [|split].
  - intros ->.
    destruct (negb (truthy (trim textToRead)) || isSpeaking st); [exact Hc|].
    unfold handleSpeak_resume.
    cbn [handleSpeak_begin practice_with audioContextRef]. rewrite Hc.
    destruct resp as [|[b|]]; try exact eq_refl.
    destruct (truthy b); [|reflexivity].
    destruct (decode b) as [bytes|]; [|reflexivity].
    destruct (decodeAudioData bytes 24000 1); reflexivity.
  - intros -> Ht Hs b -> Hb. rewrite Ht, Hs. cbn [negb orb].
    unfold handleSpeak_resume.
    cbn [handleSpeak_begin practice_with audioContextRef]. rewrite Hc, Hb.
    destruct (decode b) as [bytes|]; [|reflexivity].
    destruct (decodeAudioData bytes 24000 1); reflexivity.
  - destruct (negb (truthy (trim textToRead)) || isSpeaking st); [left; exact Hc|].
    unfold handleSpeak_resume.
    cbn [handleSpeak_begin practice_with audioContextRef]. rewrite Hc.
    destruct resp as [|[b|]]; try (left; exact eq_refl).
    destruct (truthy b); [|left; reflexivity].
    destruct contextClosed;
      (destruct (decode b) as [bytes|];
       [destruct (decodeAudioData bytes 24000 1)|]); auto.
Qed.

End SpeakMore.


Lemma handleSpeak_keeps_context_witness :
  let wa := required_support in
  let st := practice_with false None false (Some 3%nat) None [] in
  audioContextRef
    (handleSpeak (fallback_settings false) false 4 5 (js "hola")
       (SpeechAudio (Some (js "AAA="))) st)
  = Some 3%nat
  /\ audioContextRef
       (handleSpeak (fallback_settings false) true 4 5 (js "hola")
          (SpeechAudio (Some (js "AAA="))) st)
     = Some 4%nat.
Proof.
  cbv zeta.
  destruct (handleSpeak_keeps_context (wa := required_support)
              (fallback_settings false) false 4 5 3 (js "hola")
              (SpeechAudio (Some (js "AAA=")))
              (practice_with false None false (Some 3%nat) None []))
    as (H1 & _); [reflexivity|].
  destruct (handleSpeak_keeps_context (wa := required_support)
              (fallback_settings false) true 4 5 3 (js "hola")
              (SpeechAudio (Some (js "AAA=")))
              (practice_with false None false (Some 3%nat) None []))
    as (_ & H2 & _); [reflexivity|].
  split; [apply H1; reflexivity|].
  apply (H2 eq_refl eq_refl eq_refl (js "AAA=")); reflexivity.
Defined.

(** ** Session lifecycle, continued *)

Section LifecycleMore.

Context {wa : WebAudio}.

(** X15: a stop after a successful start closes the session (or logs its
    rejection), stops the microphone, disconnects the processor and closes
    both contexts, in this order and once each, and leaves no reference set
    and the flag false. *)
Theorem start_stop_releases (st : TranslationState) (a : Acquired) (p : nat) :
  let st' := handleStopSession (opened a p st) in
  released st'
  /\ isSessionActive st' = false
  /\ log st'
     = log st ++ close_session (connection a)
       ++ [TrackStop (stream a); NodeDisconnect p;
           ContextClose (inputCtx a); ContextClose (outputCtx a)].
Proof.
  cbv zeta. unfold opened, handleStopSession, onopen. cbn.
  split; [repeat split|]. split; [reflexivity|].
  rewrite <- app_assoc. reflexivity.
Qed.

(** X16: a stop that finds a session leaves no reference set and the flag
    false, and it does not touch the playback state or the texts: sources
    still in the active set stay there, and the cursor keeps its value. *)
Theorem stop_releases_all (st : TranslationState) :
  is_Some (sessionPromiseRef st) ->
  let st' := handleStopSession st in
  released st'
  /\ isSessionActive st' = false
  /\ audioSourcesRef st' = audioSourcesRef st
  /\ nextStartTimeRef st' = nextStartTimeRef st
  /\ same_text st' st.
Proof.
  intros [p Hp]. cbv zeta. unfold handleStopSession. rewrite Hp.
  repeat split.
Qed.

Lemma stop_releases_all_witness :
  let st := opened {| stream := 1; inputCtx := 2; outputCtx := 3;
                      connection := Resolves 4 |} 5
              (set_audioSourcesRef [7%nat] initial_state) in
  released (handleStopSession st)
  /\ audioSourcesRef (handleStopSession st) = [7%nat].
Proof.
  cbv zeta.
  destruct (stop_releases_all
              (opened {| stream := 1; inputCtx := 2; outputCtx := 3;
                         connection := Resolves 4 |} 5
                 (set_audioSourcesRef [7%nat] initial_state)))
    as (H1 & _ & H2 & _).
  - eexists. reflexivity.
  - split; [exact H1 | exact H2].
Defined.

Lemma Uint8Array_of_Int16Array_length a :
  length (Uint8Array_of_Int16Array a) = (2 * length a)%nat.
Proof.
  induction a as [|z a IH]; [reflexivity|].
  cbn [Uint8Array_of_Int16Array flat_map bytes_of_int16 app length].
  fold (Uint8Array_of_Int16Array a). rewrite IH. lia.
Qed.

Lemma createBlob_Some samples :
  exists e,
    encode (Uint8Array_of_Int16Array (map quantize samples)) = Some e
    /\ decode e = Some (Uint8Array_of_Int16Array (map quantize samples))
    /\ createBlob samples
       = Some {| data := e; mimeType := js "audio/pcm;rate=16000" |}.
Proof.
  destruct (decode_encode (Uint8Array_of_Int16Array (map quantize samples)))
    as (e & He & Hd); [apply Uint8Array_of_Int16Array_bytes|].
  exists e. split; [exact He|]. split; [exact Hd|].
  unfold createBlob. rewrite He. reflexivity.
Qed.

(** X17: [createBlob] accepts every sample array, in range or not: the
    blob has the PCM mime type, its text decodes to the two bytes of every
    quantized sample, and has four characters per three bytes. *)
Theorem createBlob_total (samples : Float32Array) :
  exists blob,
    createBlob samples = Some blob
    /\ mimeType blob = js "audio/pcm;rate=16000"
    /\ decode (data blob)
       = Some (Uint8Array_of_Int16Array (map quantize samples))
    /\ length (data blob) = (4 * ((2 * length samples + 2) / 3))%nat.
Proof.
  destruct (createBlob_Some samples) as (e & He & Hd & ->).
  eexists. split; [reflexivity|]. cbn [mimeType data].
  split; [reflexivity|]. split; [exact Hd|].
  unfold encode, Base64.btoa in He.
  destruct (forallb _ _); [|discriminate]. injection He as <-.
  rewrite encode_bytes_length, Uint8Array_of_Int16Array_length, length_map.
  reflexivity.
Qed.

(** X18: a captured frame is sent once, as the blob of its samples, when
    the session reference holds a promise that resolves; it is dropped
    when the reference is null or the promise rejects; and after a stop
    every frame is dropped. *)
Theorem onaudioprocess_sends_or_drops (inputData : Float32Array)
    (st : TranslationState) :
  (forall session, sessionPromiseRef st = Some (Resolves session) ->
     exists pcmBlob, createBlob inputData = Some pcmBlob
                     /\ onaudioprocess inputData st
                        = emit [SendRealtimeInput session pcmBlob] st)
  /\ (sessionPromiseRef st = None \/ sessionPromiseRef st = Some Rejects ->
      onaudioprocess inputData st = st)
  /\ onaudioprocess inputData (handleStopSession st) = handleStopSession st.
Proof.
  destruct (createBlob_Some inputData) as (e & _ & _ & Hb).
  unfold onaudioprocess. rewrite Hb. split; [|split].
  - intros session ->. eexists. split; reflexivity.
  - intros [-> | ->]; reflexivity.
  - rewrite handleStopSession_clears. reflexivity.
Qed.

Lemma onaudioprocess_sends_or_drops_witness :
  let st := opened {| stream := 1; inputCtx := 2; outputCtx := 3;
                      connection := Resolves 4 |} 5 initial_state in
  exists pcmBlob,
    createBlob [1 # 2]%Q = Some pcmBlob
    /\ onaudioprocess [1 # 2]%Q st = emit [SendRealtimeInput 4 pcmBlob] st.
Proof.
  cbv zeta.
  destruct (onaudioprocess_sends_or_drops [1 # 2]%Q
              (opened {| stream := 1; inputCtx := 2; outputCtx := 3;
                         connection := Resolves 4 |} 5 initial_state))
    as (H & _).
  apply (H 4%nat). reflexivity.
Defined.

End LifecycleMore.

(** ** Invariants of the interpreter *)

Section Invariants.

Context {wa : WebAudio}.

Lemma NoDup_set_add x s : NoDup s -> NoDup (set_add x s).
Proof.
  intros H. unfold set_add. case_bool_decide as Hx; [exact H|].
  apply NoDup_app. split; [exact H|]. split.
  - intros y Hy Hy'. apply list_elem_of_singleton in Hy'. subst y. contradiction.
  - apply NoDup_singleton.
Qed.

Lemma NoDup_set_delete x s : NoDup s -> NoDup (set_delete x s).
Proof.
  unfold set_delete. induction 1 as [|y s Hy _ IH]; [constructor|].
  cbn [List.filter]. destruct (negb (x =? y)%nat); [|exact IH].
  constructor; [|exact IH].
  intros Hin. apply Hy.
  apply list_elem_of_In, filter_In in Hin. apply list_elem_of_In, Hin.
Qed.

Lemma on_inputTranscription_frame msg st :
  let st' := on_inputTranscription msg st in
  interimTranscript st' = currentTextRef st'
  \/ st' = st.
Proof.
  cbv zeta. unfold on_inputTranscription.
  destruct (inputTranscription msg); [left; reflexivity | right; reflexivity].
Qed.

Lemma on_turnComplete_consistent clk msg st :
  interimTranscript st = currentTextRef st ->
  Forall committed (transcripts st) ->
  let st' := on_turnComplete clk msg st in
  interimTranscript st' = currentTextRef st'
  /\ Forall committed (transcripts st').
Proof.
  intros Hi Hc. cbv zeta. unfold on_turnComplete.
  destruct (turnComplete msg); [|split; assumption].
  split; [reflexivity|].
  destruct (truthy (trim (currentTextRef st))) eqn:E; cbn; [|exact Hc].
  apply Forall_app. split; [exact Hc|].
  constructor; [|constructor]. split; [reflexivity | exact E].
Qed.

Lemma on_modelTurn_sources cfg clk msg st :
  NoDup (audioSourcesRef st) ->
  NoDup (audioSourcesRef (state_of (on_modelTurn cfg clk msg st))).
Proof.
  intros H. unfold on_modelTurn.
  destruct (modelTurn msg) as [| |[b|]]; try exact H.
  destruct (truthy b); [|exact H].
  destruct (outputAudioContextRef st); [|exact H].
  destruct (decode b) as [bytes|]; [|exact H].
  destruct (decodeAudioData bytes 24000 1); [|exact H].
  cbn. apply NoDup_set_add, H.
Qed.

Lemma on_interrupted_sources msg st :
  NoDup (audioSourcesRef st) -> NoDup (audioSourcesRef (on_interrupted msg st)).
Proof.
  intros H. destruct (interrupted msg) eqn:Hi.
  - destruct (on_interrupted_flush msg st Hi) as (-> & _). constructor.
  - unfold on_interrupted. rewrite Hi. exact H.
Qed.

Lemma onmessage_sources cfg clk msg st :
  NoDup (audioSourcesRef st) ->
  NoDup (audioSourcesRef (state_of (onmessage cfg clk msg st))).
Proof.
  intros H. unfold onmessage.
  set (st2 := on_turnComplete clk msg (on_inputTranscription msg st)).
  assert (H2 : NoDup (audioSourcesRef st2)).
  { subst st2. unfold on_turnComplete, on_inputTranscription.
    destruct (turnComplete msg), (inputTranscription msg); cbn; try exact H;
      match goal with |- context [truthy ?t] => destruct (truthy t) end;
      exact H. }
  pose proof (on_modelTurn_sources cfg clk msg st2 H2) as H3.
  destruct (on_modelTurn cfg clk msg st2) as [st3|st3]; cbn [state_of] in *.
  - apply on_interrupted_sources, H3.
  - exact H3.
Qed.

Lemma handleStopSession_consistent st :
  consistent st -> consistent (handleStopSession st).
Proof.
  unfold handleStopSession. destruct (sessionPromiseRef st); intros H; exact H.
Qed.

Lemma step_consistent e st : consistent st -> consistent (step e st).
Proof.
  intros (Hi & Hc & Hn).
  destruct e as [|o| |p|d|cfg clk msg|s| |]; cbn [step].
  - repeat split; assumption.
  - destruct o; repeat split; assumption.
  - apply handleStopSession_consistent. repeat split; assumption.
  - unfold onopen. destruct (inputAudioContextRef st); repeat split; assumption.
  - unfold onaudioprocess.
    destruct (createBlob d), (sessionPromiseRef st) as [[|]|];
      repeat split; assumption.
  - destruct (onmessage_text cfg clk msg st) as (Et & Ei & Ec).
    assert (H1 : interimTranscript (on_inputTranscription msg st)
                 = currentTextRef (on_inputTranscription msg st)).
    { destruct (on_inputTranscription_frame msg st) as [H | ->];
        [exact H | exact Hi]. }
    assert (H2 : Forall committed (transcripts (on_inputTranscription msg st))).
    { rewrite on_inputTranscription_transcripts. exact Hc. }
    destruct (on_turnComplete_consistent clk msg _ H1 H2) as [H3 H4].
    split; [rewrite Ei, Ec; exact H3|].
    split; [rewrite Et; exact H4|].
    apply onmessage_sources, Hn.
  - split; [exact Hi|]. split; [exact Hc|]. cbn. apply NoDup_set_delete, Hn.
  - unfold onerror. apply handleStopSession_consistent.
    repeat split; assumption.
  - repeat split; assumption.
Qed.

Lemma run_consistent es : forall st, consistent st -> consistent (run es st).
Proof.
  induction es as [|e es IH]; intros st H; [exact H|].
  cbn [run fold_left]. apply IH, step_consistent, H.
Qed.

Lemma initial_consistent : consistent initial_state.
Proof. split; [reflexivity|]. split; constructor. Qed.

(** X19: in every state the component reaches, the interim transcript on
    display is the utterance buffer. *)
Theorem interim_is_buffer (es : list Event) :
  interimTranscript (run es initial_state)
  = currentTextRef (run es initial_state).
Proof. apply (run_consistent es initial_state initial_consistent). Qed.

(** X20: in every state the component reaches, every transcript entry is
    tagged with the speaker "user" and holds a text that does not trim to
    the empty string. *)
Theorem transcripts_never_blank (es : list Event) :
  Forall committed (transcripts (run es initial_state)).
Proof. apply (run_consistent es initial_state initial_consistent). Qed.

End Invariants.

(** ** Messages, continued *)

Section MessagesMore.

Context {wa : WebAudio}.

Variable cfg : AppSettings.

Lemma text_parts_frame clk msg st :
  let st2 := on_turnComplete clk msg (on_inputTranscription msg st) in
  nextStartTimeRef st2 = nextStartTimeRef st
  /\ log st2 = log st
  /\ outputAudioContextRef st2 = outputAudioContextRef st
  /\ audioSourcesRef st2 = audioSourcesRef st.
Proof.
  cbv zeta. unfold on_turnComplete, on_inputTranscription.
  destruct (turnComplete msg), (inputTranscription msg); cbn;
    try (repeat split; reflexivity);
    match goal with |- context [truthy ?t] => destruct (truthy t) end;
    repeat split; reflexivity.
Qed.

Lemma decoded_mono b buf :
  decoded b = Some buf ->
  exists bytes a,
    decode b = Some bytes
    /\ Int16Array_of_Uint8Array bytes = Some a
    /\ buf = {| numberOfChannels := 1; sampleRate := 24000;
                channelData := [map pcm_float a] |}.
Proof.
  unfold decoded. destruct (decode b) as [bytes|]; [|discriminate].
  intros H. destruct (decodeAudioData_mono bytes 24000 buf H) as (a & Ha & Hb).
  exists bytes, a. repeat split; assumption.
Qed.

(** X22: the buffer decoded from a payload is mono at 24 kHz with one
    frame for every two bytes of the payload, so it lasts
    [(bytes / 2) / 24000] seconds. *)
Theorem decoded_duration (b : jsstring) (buf : AudioBuffer) :
  decoded b = Some buf ->
  exists bytes,
    decode b = Some bytes
    /\ numberOfChannels buf = 1%nat
    /\ sampleRate buf = 24000%float
    /\ buffer_length buf = (length bytes / 2)%nat
    /\ duration buf = (number_of_nat (length bytes / 2) / 24000)%float.
Proof.
  intros H. destruct (decoded_mono b buf H) as (bytes & a & Hd & Ha & ->).
  exists bytes. split; [exact Hd|]. split; [reflexivity|]. split; [reflexivity|].
  unfold duration, buffer_length. cbn [channelData sampleRate].
  rewrite length_map, (Int16Array_of_bytes_length bytes a Ha).
  split; reflexivity.
Qed.


End MessagesMore.

Lemma decoded_duration_witness :
  let wa := required_support in
  let buf := {| numberOfChannels := 1; sampleRate := 24000;
                channelData := [[pcm_float 0; pcm_float 0]] |} in
  exists bytes,
    decode (js "AAAAAA==") = Some bytes
    /\ numberOfChannels buf = 1%nat
    /\ sampleRate buf = 24000%float
    /\ buffer_length buf = (length bytes / 2)%nat
    /\ duration buf = (number_of_nat (length bytes / 2) / 24000)%float.
Proof.
  apply (decoded_duration (wa := required_support) (js "AAAAAA==")).
  vm_compute. reflexivity.
Defined.


(** At a playback rate of 0 the cursor goes to infinity. *)
Example rate_zero_sends_cursor_to_infinity :
  let wa := required_support in
  let cfg := {| theme := light; volume := 1; playbackRate := 0 |} in
  let clk := {| currentTime := 5; Date_now := 0; newSource := 1 |} in
  let st := set_resources None None (Some 9%nat) None None initial_state in
  nextStartTimeRef (state_of (onmessage cfg clk (audio_message (js "AAA=")) st))
  = infinity.
Proof. vm_compute. reflexivity. Qed.

Section Interrupts.

Context {wa : WebAudio}.

Variable cfg : AppSettings.


(** X25: a source that has ended is gone from the active set, so a later
    interrupt stops every other active source and not that one. *)
Theorem ended_source_not_stopped (msg : LiveServerMessage) (s : nat)
    (st : TranslationState) :
  interrupted msg = true ->
  exists stops,
    log (on_interrupted msg (source_ended s st)) = log st ++ stops
    /\ ~ (SourceStop s ∈ stops)
    /\ (forall x, x ∈ audioSourcesRef st -> x <> s -> SourceStop x ∈ stops).
Proof.
  intros Hi.
  destruct (on_interrupted_flush msg (source_ended s st) Hi) as (_ & _ & Hl & _).
  exists (map SourceStop (set_delete s (audioSourcesRef st))).
  split; [exact Hl|].
  assert (Hmem : forall x, x ∈ set_delete s (audioSourcesRef st)
                           <-> x ∈ audioSourcesRef st /\ x <> s).
  { intros x. unfold set_delete. rewrite !list_elem_of_In, filter_In.
    rewrite negb_true_iff, Nat.eqb_neq. intuition congruence. }
  split.
  - intros Hin. apply list_elem_of_In, in_map_iff in Hin.
    destruct Hin as (x & [= ->] & Hx).
    apply list_elem_of_In, Hmem in Hx. destruct Hx as [_ Hx]. apply Hx.
    reflexivity.
  - intros x Hx Hne. apply list_elem_of_In, in_map, list_elem_of_In, Hmem.
    split; assumption.
Qed.

Lemma on_transcription_only clk t st :
  state_of (onmessage cfg clk (transcription_message t) st)
  = set_interimTranscript (currentTextRef st ++ t)
      (set_currentTextRef (currentTextRef st ++ t) st).
Proof. reflexivity. Qed.

Lemma run_transcriptions clk ts : forall st,
  let st' := run (map (fun t => Message cfg clk (transcription_message t)) ts) st in
  currentTextRef st' = currentTextRef st ++ concat ts
  /\ transcripts st' = transcripts st.
Proof.
  induction ts as [|t ts IH]; intros st; cbv zeta.
  - cbn. rewrite app_nil_r. split; reflexivity.
  - cbn [map run fold_left step]. rewrite on_transcription_only.
    fold (run (map (fun t => Message cfg clk (transcription_message t)) ts)
              (set_interimTranscript (currentTextRef st ++ t)
                 (set_currentTextRef (currentTextRef st ++ t) st))).
    destruct (IH (set_interimTranscript (currentTextRef st ++ t)
                    (set_currentTextRef (currentTextRef st ++ t) st)))
      as [-> ->].
    cbn. rewrite <- app_assoc. split; reflexivity.
Qed.

(** X26: partial transcriptions accumulate and are committed together:
    after a start, the texts of any number of transcription messages
    followed by a turn-complete signal give one transcript entry holding
    their concatenation when it has a character that is not white space,
    and no entry when it has none; the buffer is empty afterwards either
    way. *)
Theorem utterance_committed_whole (clk clk' : Clock) (ts : list jsstring)
    (st : TranslationState) :
  let events :=
    StartBegin
    :: map (fun t => Message cfg clk (transcription_message t)) ts
    ++ [Message cfg clk' turn_complete_message] in
  let st' := run events st in
  currentTextRef st' = []
  /\ interimTranscript st' = []
  /\ transcripts st'
     = transcripts st
       ++ (if forallb is_js_whitespace (concat ts) then []
           else [{| id := Date_now clk'; speaker := "user";
                    text := concat ts |}]).
Proof.
  cbv zeta. cbn [run fold_left step].
  fold (run (map (fun t => Message cfg clk (transcription_message t)) ts
             ++ [Message cfg clk' turn_complete_message])
            (handleStartSession_begin st)).
  rewrite run_snoc.
  destruct (run_transcriptions clk ts (handleStartSession_begin st)) as [Hc Ht].
  cbn [handleStartSession_begin currentTextRef set_nextStartTimeRef
       set_currentTextRef app] in Hc.
  set (st1 := run _ (handleStartSession_begin st)) in *.
  assert (E : step (Message cfg clk' turn_complete_message) st1
              = on_turnComplete clk' turn_complete_message st1) by reflexivity.
  rewrite E. unfold on_turnComplete. cbn [turnComplete turn_complete_message].
  rewrite Hc. split; [reflexivity|]. split; [reflexivity|].
  destruct (forallb is_js_whitespace (concat ts)) eqn:Ew.
  - rewrite (blank_not_truthy _ Ew). cbn. rewrite Ht, app_nil_r. reflexivity.
  - destruct (truthy (trim (concat ts))) eqn:Et.
    + cbn. rewrite Ht. reflexivity.
    + exfalso. destruct (trim (concat ts)) eqn:Etr; [|discriminate Et].
      apply trim_nil in Etr. congruence.
Qed.

End Interrupts.


Lemma ended_source_not_stopped_witness :
  let msg := {| inputTranscription := None; turnComplete := false;
                modelTurn := NoModelTurn; interrupted := true |} in
  let st := set_audioSourcesRef [3; 5]%nat initial_state in
  exists stops,
    log (on_interrupted msg (source_ended 3 st)) = log st ++ stops
    /\ ~ (SourceStop 3 ∈ stops)
    /\ (forall x, x ∈ audioSourcesRef st -> x <> 3%nat -> SourceStop x ∈ stops).
Proof.
  cbv zeta.
  apply (ended_source_not_stopped
           {| inputTranscription := None; turnComplete := false;
              modelTurn := NoModelTurn; interrupted := true |}
           3 (set_audioSourcesRef [3; 5]%nat initial_state)).
  reflexivity.
Defined.

Example two_partials_committed :
  let wa := required_support in
  let cfg := fallback_settings false in
  let clk := {| currentTime := 0; Date_now := 42; newSource := 0 |} in
  transcripts
    (run [StartBegin;
          Message cfg clk (transcription_message (js "buenos "));
          Message cfg clk (transcription_message (js "dias"));
          Message cfg clk turn_complete_message] initial_state)
  = [{| id := 42; speaker := "user"; text := js "buenos dias" |}].
Proof. vm_compute. reflexivity. Qed.

Section TransportError.

Context {wa : WebAudio}.

(** X27: a transport error on a live session tears it down like a stop:
    no reference stays set, the flag is false, a later stop has nothing
    left to do; and the error is only logged, no alert is raised. *)
Theorem onerror_tears_down (st : TranslationState) :
  is_Some (sessionPromiseRef st) ->
  released (onerror st)
  /\ isSessionActive (onerror st) = false
  /\ handleStopSession (onerror st) = onerror st
  /\ List.filter is_alert (log (onerror st)) = List.filter is_alert (log st).
Proof.
  intros [p Hp]. unfold onerror, handleStopSession.
  cbn [emit sessionPromiseRef]. rewrite Hp.
  split; [repeat split|]. split; [reflexivity|]. split; [reflexivity|].
  cbn. rewrite !List.filter_app. cbn.
  destruct p; cbn;
    destruct (microphoneStreamRef st), (scriptProcessorRef st),
      (inputAudioContextRef st), (outputAudioContextRef st);
    cbn; rewrite ?app_nil_r; reflexivity.
Qed.

Lemma onerror_tears_down_witness :
  let st := opened {| stream := 1; inputCtx := 2; outputCtx := 3;
                      connection := Resolves 4 |} 5 initial_state in
  released (onerror st)
  /\ isSessionActive (onerror st) = false
  /\ handleStopSession (onerror st) = onerror st
  /\ List.filter is_alert (log (onerror st)) = List.filter is_alert (log st).
Proof.
  apply (onerror_tears_down
           (opened {| stream := 1; inputCtx := 2; outputCtx := 3;
                      connection := Resolves 4 |} 5 initial_state)).
  eexists. reflexivity.
Defined.

End TransportError.
